(** * DipoleMagnetPair: the Gazebo dipole-magnet pair plugin

    A shallow embedding of the model plugin [DipoleMagnetPair] (its
    implementation file and dipole_magnet_pair.h): the dipole force/torque
    and field formulas
    ([GetForceTorque], [GetMFS]), the pose resolution of [OnUpdate], the
    publishing guard [PublishData] with [Connect]/[Disconnect], and the
    parameter handling of [Load].

    The C++ code computes on [double] through ignition::math's templates
    [Vector3<T>], [Quaternion<T>] and [Pose3<T>].  The embedding keeps the
    template parameter: every function is written once over a [Scalar]
    interface and read at two instances,
    - [RealScalar]: real numbers, the arithmetic the design document states
      its formulas in ("3 real components");
    - [DoubleScalar]: IEEE-754 binary64 ([PrimFloat]), the arithmetic the
      compiled plugin runs, with NaN and infinities. *)

From Stdlib Require Import ZArith List String Bool.
From Stdlib Require Import Floats.
From Stdlib Require Import Reals Lra Psatz.
Import ListNotations.

Set Implicit Arguments.
Set Warnings "-inexact-float".

(** ** Scalars *)

(** The operations the plugin and the ignition::math templates apply to a
    [T].  [s_powi] is [std::pow] at an integral exponent: the sources pass
    only the literals 2, 3 and 4. *)
Class Scalar (T : Type) : Type := {
  of_Z   : Z -> T;
  s_add  : T -> T -> T;
  s_sub  : T -> T -> T;
  s_mul  : T -> T -> T;
  s_div  : T -> T -> T;
  s_neg  : T -> T;
  s_sqrt : T -> T;
  s_powi : T -> Z -> T;
  s_abs  : T -> T;
  s_ltb  : T -> T -> bool;
  s_leb  : T -> T -> bool
}.

Declare Scope scalar_scope.
Delimit Scope scalar_scope with sc.
Infix "+" := s_add : scalar_scope.
Infix "-" := s_sub : scalar_scope.
Infix "*" := s_mul : scalar_scope.
Infix "/" := s_div : scalar_scope.
Notation "- x" := (s_neg x) : scalar_scope.
Infix "<?" := s_ltb : scalar_scope.
Infix "<=?" := s_leb : scalar_scope.

(** A decimal literal [m]e[e] of the source, such as [3.0] ([lit 3 0]) or
    [1e-7] ([lit 1 (-7)]).  With a negative exponent it is the quotient of two
    integers; in binary64 both are exact for the literals of this plugin, so
    the correctly rounded quotient is the double the compiler emits. *)
Definition lit {T} `{Scalar T} (m e : Z) : T :=
  if (e <? 0)%Z then (of_Z m / of_Z (10 ^ (- e)))%sc
  else of_Z (m * 10 ^ e).

(** *** Real numbers *)

Definition Rltb (a b : R) : bool := if Rlt_dec a b then true else false.
Definition Rleb (a b : R) : bool := if Rle_dec a b then true else false.

#[export] Instance RealScalar : Scalar R := {
  of_Z   := IZR;
  s_add  := Rplus;
  s_sub  := Rminus;
  s_mul  := Rmult;
  s_div  := Rdiv;
  s_neg  := Ropp;
  s_sqrt := R_sqrt.sqrt;
  s_powi := fun x n => Rpow_def.pow x (Z.to_nat n);
  s_abs  := Rabs;
  s_ltb  := Rltb;
  s_leb  := Rleb
}.

(** *** IEEE-754 binary64 *)

(** [static_cast<double>] of an integer. *)
Definition float_of_Z (z : Z) : float :=
  match z with
  | Z0 => PrimFloat.zero
  | Zpos _ => PrimFloat.of_uint63 (Uint63.of_Z z)
  | Zneg _ => PrimFloat.opp (PrimFloat.of_uint63 (Uint63.of_Z (- z)))
  end.

(** [std::pow] belongs to the C library, not to the plugin: the binary64
    instance takes it as an argument. *)
Definition DoubleScalar (libm_pow : float -> float -> float) : Scalar float := {|
  of_Z   := float_of_Z;
  s_add  := PrimFloat.add;
  s_sub  := PrimFloat.sub;
  s_mul  := PrimFloat.mul;
  s_div  := PrimFloat.div;
  s_neg  := PrimFloat.opp;
  s_sqrt := PrimFloat.sqrt;
  s_powi := fun x n => libm_pow x (float_of_Z n);
  s_abs  := PrimFloat.abs;
  s_ltb  := PrimFloat.ltb;
  s_leb  := PrimFloat.leb
|}.

(** A power function to run the binary64 instance with: repeated
    multiplication for a non-negative integral exponent, and [1 / x^(-n)]
    for a negative one.  It returns what C's [pow] returns wherever the
    product is exact (in particular [pow(0, n) = 0], [pow(1, n) = 1] and
    [pow(nan, n) = nan] for [n > 0]); on other arguments the two may differ
    in the last bit. *)
Fixpoint pow_iter (x : float) (n : nat) : float :=
  match n with
  | O => PrimFloat.one
  | S O => x
  | S m => PrimFloat.mul x (pow_iter x m)
  end.

Definition float_to_Z (y : float) : Z :=
  match Prim2SF y with
  | S754_finite s m e => Z.shiftl (if s then Zneg m else Zpos m) e
  | _ => 0
  end.

Definition pow_mul (x y : float) : float :=
  let n := float_to_Z y in
  if (n <? 0)%Z then PrimFloat.div PrimFloat.one (pow_iter x (Z.to_nat (- n)))
  else pow_iter x (Z.to_nat n).

(** ** ignition::math *)

Section Math.
Context {T : Type} `{Scalar T}.
Local Open Scope scalar_scope.

(** *** Vector3<T> *)

Record Vector3 : Type := mkVector3 { vX : T; vY : T; vZ : T }.

(** [Vector3()] *)
Definition Vector3_Zero : Vector3 := mkVector3 (of_Z 0) (of_Z 0) (of_Z 0).

(** [operator+], also the update of [operator+=] *)
Definition Vadd (a b : Vector3) : Vector3 :=
  mkVector3 (vX a + vX b) (vY a + vY b) (vZ a + vZ b).

(** [operator-] (binary) *)
Definition Vsub (a b : Vector3) : Vector3 :=
  mkVector3 (vX a - vX b) (vY a - vY b) (vZ a - vZ b).

(** [operator-] (unary) *)
Definition Vneg (a : Vector3) : Vector3 :=
  mkVector3 (- vX a) (- vY a) (- vZ a).

(** [Vector3 operator*(T _v) const] *)
Definition Vmuls (a : Vector3) (v : T) : Vector3 :=
  mkVector3 (vX a * v) (vY a * v) (vZ a * v).

(** [friend Vector3 operator*(T _s, const Vector3 &_v)] *)
Definition sVmul (s : T) (v : Vector3) : Vector3 :=
  mkVector3 (vX v * s) (vY v * s) (vZ v * s).

(** [Vector3 operator/(T _v) const] *)
Definition Vdivs (a : Vector3) (v : T) : Vector3 :=
  mkVector3 (vX a / v) (vY a / v) (vZ a / v).

Definition Dot (a b : Vector3) : T :=
  vX a * vX b + vY a * vY b + vZ a * vZ b.

Definition Cross (a b : Vector3) : Vector3 :=
  mkVector3 (vY a * vZ b - vZ a * vY b)
            (vZ a * vX b - vX a * vZ b)
            (vX a * vY b - vY a * vX b).

Definition SquaredLength (a : Vector3) : T :=
  s_powi (vX a) 2 + s_powi (vY a) 2 + s_powi (vZ a) 2.

Definition Length (a : Vector3) : T := s_sqrt (SquaredLength a).

(** *** Quaternion<T> *)

Record Quaternion : Type := mkQuaternion { qw : T; qx : T; qy : T; qz : T }.

(** [Quaternion()], the identity rotation *)
Definition Quaternion_Identity : Quaternion :=
  mkQuaternion (of_Z 1) (of_Z 0) (of_Z 0) (of_Z 0).

(** [ignition::math::equal(_a, _b, _epsilon = 1e-6)] *)
Definition equal (a b : T) : bool := s_abs (a - b) <=? lit 1 (-6).

(** [Quaternion operator*(const Quaternion &_q) const] *)
Definition Qmul (a q : Quaternion) : Quaternion :=
  mkQuaternion
    (qw a * qw q - qx a * qx q - qy a * qy q - qz a * qz q)
    (qw a * qx q + qx a * qw q + qy a * qz q - qz a * qy q)
    (qw a * qy q - qx a * qz q + qy a * qw q + qz a * qx q)
    (qw a * qz q + qx a * qy q - qy a * qx q + qz a * qw q).

(** [Quaternion::Inverse]: the conjugate over the squared norm, and the
    identity for a quaternion whose squared norm is within 1e-6 of zero. *)
Definition Inverse (q : Quaternion) : Quaternion :=
  let s := qw q * qw q + qx q * qx q + qy q * qy q + qz q * qz q in
  if equal s (of_Z 0) then
    mkQuaternion (lit 1 0) (lit 0 0) (lit 0 0) (lit 0 0)
  else
    mkQuaternion (qw q / s) (- qx q / s) (- qy q / s) (- qz q / s).

Definition RotateVector (q : Quaternion) (vec : Vector3) : Vector3 :=
  let tmp := mkQuaternion (of_Z 0) (vX vec) (vY vec) (vZ vec) in
  let tmp := Qmul q (Qmul tmp (Inverse q)) in
  mkVector3 (qx tmp) (qy tmp) (qz tmp).

Definition RotateVectorReverse (q : Quaternion) (vec : Vector3) : Vector3 :=
  let tmp := mkQuaternion (lit 0 0) (vX vec) (vY vec) (vZ vec) in
  let tmp := Qmul (Inverse q) (Qmul tmp q) in
  mkVector3 (qx tmp) (qy tmp) (qz tmp).

(** *** Pose3<T> *)

Record Pose3 : Type := mkPose3 { Pos : Vector3; Rot : Quaternion }.

(** [Pose3()] *)
Definition Pose3_Zero : Pose3 := mkPose3 Vector3_Zero Quaternion_Identity.

End Math.

Arguments Vector3 T : clear implicits.
Arguments Quaternion T : clear implicits.
Arguments Pose3 T : clear implicits.

(** ** gazebo::common::Time *)

(** Seconds and nanoseconds, both [int32_t] in Gazebo; the embedding uses
    [Z] and is read for simulation times within the [int32_t] range. *)
Record Time : Type := mkTime { sec : Z; nsec : Z }.

Definition nsInSec : Z := 1000000000.

(** [Time::Correct]: C++ [/] and [%] truncate towards zero. *)
Definition Time_Correct (t : Time) : Time :=
  let t1 :=
    if ((0 <? sec t) && (nsec t <? 0))%Z then
      let n := (Z.abs (Z.quot (nsec t) nsInSec) + 1)%Z in
      mkTime (sec t - n) (nsec t + n * nsInSec)
    else t in
  let t2 :=
    if ((sec t1 <? 0) && (0 <? nsec t1))%Z then
      let n := (Z.abs (Z.quot (nsec t1) nsInSec) + 1)%Z in
      mkTime (sec t1 + n) (nsec t1 - n * nsInSec)
    else t1 in
  mkTime (sec t2 + Z.quot (nsec t2) nsInSec) (Z.rem (nsec t2) nsInSec).

(** [Time::operator-] *)
Definition Time_sub (a b : Time) : Time :=
  Time_Correct (mkTime (sec a - sec b) (nsec a - nsec b)).

(** [Time::Double] *)
Definition Time_Double {T} `{Scalar T} (t : Time) : T :=
  (of_Z (sec t) + of_Z (nsec t) * lit 1 (-9))%sc.

(** [Time()] *)
Definition Time_Zero : Time := mkTime 0 0.

(** ** int *)

(** The C++ [int] of the plugin's subscriber counter: 32 bits, two's
    complement.  An increment past [INT_MAX] or a decrement past [INT_MIN]
    is undefined in C++; on the compiled plugin it wraps around, which is
    what [wrap_int] computes. *)
Definition INT_MIN : Z := -2147483648.
Definition INT_MAX : Z := 2147483647.

Definition wrap_int (z : Z) : Z :=
  ((z - INT_MIN) mod 4294967296 + INT_MIN)%Z.

Definition in_int_range (z : Z) : bool :=
  ((INT_MIN <=? z) && (z <=? INT_MAX))%Z.

(** ** The plugin *)

Section Plugin.
Context {T : Type} `{Scalar T}.
Local Open Scope scalar_scope.

(** Modelled from the spec: [DipoleMagnetContainer::Magnet] is declared in
    dipole_magnet_container.h, which is not among the sources.  The plugin
    reads and writes its [moment] and [offset] members ("Magnet:
    { moment: Vector3, offset: Pose }"), whose defaults are the zero moment
    and the identity offset. *)
Record Magnet : Type := mkMagnet { moment : Vector3 T; offset : Pose3 T }.

Definition Magnet_default : Magnet := mkMagnet Vector3_Zero Pose3_Zero.

(** *** GetForceTorque and GetMFS *)

(** The two output parameters [force] and [torque] are returned as a
    pair. *)
Definition GetForceTorque (p_self : Pose3 T) (m_self : Vector3 T)
    (p_other : Pose3 T) (m_other : Vector3 T) : Vector3 T * Vector3 T :=
  let p := Vsub (Pos p_self) (Pos p_other) in
  let p_unit := Vdivs p (Length p) in
  let m1 := m_other in
  let m2 := m_self in
  let K := lit 3 0 * lit 1 (-7) / s_powi (Length p) 4 in
  let force :=
    sVmul K
      (Vsub
         (Vadd (Vadd (Vmuls m2 (Dot m1 p_unit)) (Vmuls m1 (Dot m2 p_unit)))
               (Vmuls p_unit (Dot m1 m2)))
         (Vmuls (Vmuls (sVmul (of_Z 5) p_unit) (Dot m1 p_unit))
                (Dot m2 p_unit))) in
  let Ktorque := lit 1 (-7) / s_powi (Length p) 3 in
  let B1 := sVmul Ktorque (Vsub (sVmul (of_Z 3 * Dot m1 p_unit) p_unit) m1) in
  let torque := Cross m2 B1 in
  (force, torque).

Definition GetMFS (p_self p_other : Pose3 T) (m_other : Vector3 T)
    : Vector3 T :=
  let p := Vsub (Pos p_self) (Pos p_other) in
  let p_unit := Vdivs p (Length p) in
  let K := lit 1 (-7) / s_powi (Length p) 3 in
  let B := sVmul K (Vsub (sVmul (of_Z 3 * Dot m_other p_unit) p_unit) m_other) in
  let B_body := RotateVectorReverse (Rot p_self) B in
  mkVector3 (vX B_body) (vY B_body) (vZ B_body).

(** *** Plugin state *)

Record WrenchStamped : Type := mkWrenchStamped {
  wrench_frame_id : string;
  wrench_stamp : Time;
  wrench_force : Vector3 T;
  wrench_torque : Vector3 T
}.

Record MagneticField : Type := mkMagneticField {
  mfs_frame_id : string;
  mfs_stamp : Time;
  magnetic_field : Vector3 T
}.

(** What a call of [ros::Publisher::publish] hands to ROS. *)
Inductive Published : Type :=
| PubWrench (m : WrenchStamped)
| PubMfs (m : MagneticField).

(** The data members of [DipoleMagnetPair] that the modelled methods read
    or write.  [link] holds the names of the links that [GetLink] found;
    [rosnode] and [update_connection] record whether the node handle and
    the world-update connection exist; [connect_count] is an [int], kept
    between [INT_MIN] and [INT_MAX] by [Connect] and [Disconnect]. *)
Record DipoleMagnetPair : Type := mkDipoleMagnetPair {
  link : option string * option string;
  mag : Magnet * Magnet;
  link_name : string * string;
  robot_namespace : string;
  topic_ns : string;
  should_publish : bool;
  rosnode : bool;
  wrench_msg : WrenchStamped;
  mfs_msg : MagneticField;
  connect_count : Z;
  last_time : Time;
  update_rate : T;
  update_connection : bool
}.

Definition set_connect_count (st : DipoleMagnetPair) (n : Z) :=
  mkDipoleMagnetPair (link st) (mag st) (link_name st) (robot_namespace st)
    (topic_ns st) (should_publish st) (rosnode st) (wrench_msg st)
    (mfs_msg st) n (last_time st) (update_rate st) (update_connection st).

Definition set_msgs (st : DipoleMagnetPair) (w : WrenchStamped)
    (m : MagneticField) :=
  mkDipoleMagnetPair (link st) (mag st) (link_name st) (robot_namespace st)
    (topic_ns st) (should_publish st) (rosnode st) w m
    (connect_count st) (last_time st) (update_rate st) (update_connection st).

(** *** Connect, Disconnect *)

(** [this->connect_count++] and [this->connect_count--] on an [int]. *)
Definition Connect (st : DipoleMagnetPair) : DipoleMagnetPair :=
  set_connect_count st (wrap_int (connect_count st + 1)).

Definition Disconnect (st : DipoleMagnetPair) : DipoleMagnetPair :=
  set_connect_count st (wrap_int (connect_count st - 1)).

(** *** PublishData *)

(** [cur_time] is the value of [this->world->SimTime()].  The result is the
    state after the call and the messages published by it, in order. *)
Definition PublishData (st : DipoleMagnetPair) (cur_time : Time)
    (force torque mfs : Vector3 T) : DipoleMagnetPair * list Published :=
  if should_publish st && (0 <? connect_count st)%Z then
    if (of_Z 0 <? update_rate st) &&
       (Time_Double (Time_sub cur_time (last_time st))
          <? lit 1 0 / update_rate st)
    then (st, [])
    else
      let w := mkWrenchStamped "world" cur_time force torque in
      let m := mkMagneticField (fst (link_name st)) cur_time mfs in
      (set_msgs st w m, [PubWrench w; PubMfs m])
  else (st, []).

(** *** OnUpdate *)

(** Lines 196-198 and 200-202 of [OnUpdate]: the pose of a dipole from the
    centre-of-gravity pose of its link and the offset of its magnet.  The
    source spells the three statements out once per link. *)
Definition dipole_pose (cog : Pose3 T) (m : Magnet) : Pose3 T :=
  let p := cog in
  let p := mkPose3 (Vadd (Pos p) (Vneg (RotateVector (Rot p) (Pos (offset m)))))
                   (Rot p) in
  mkPose3 (Pos p) (Qmul (Rot p) (Inverse (Rot (offset m)))).

(** The wrenches handed to the physics engine by one update. *)
Record Applied : Type := mkApplied {
  first_force : Vector3 T;
  first_torque : Vector3 T;
  second_force : Vector3 T;
  second_torque : Vector3 T
}.

(** [cog_first] and [cog_second] are the values of
    [this->link.first->WorldCoGPose()] and
    [this->link.second->WorldCoGPose()], [cur_time] is the simulation time
    read by [PublishData]. *)
Definition OnUpdate (st : DipoleMagnetPair) (cog_first cog_second : Pose3 T)
    (cur_time : Time) : DipoleMagnetPair * Applied * list Published :=
  let p_self := dipole_pose cog_first (fst (mag st)) in
  let p_other := dipole_pose cog_second (snd (mag st)) in
  let moment_world := RotateVector (Rot p_self) (moment (fst (mag st))) in
  let force := mkVector3 (of_Z 0) (of_Z 0) (of_Z 0) in
  let torque := mkVector3 (of_Z 0) (of_Z 0) (of_Z 0) in
  let mfs := mkVector3 (of_Z 0) (of_Z 0) (of_Z 0) in
  let m_other := RotateVector (Rot p_other) (moment (snd (mag st))) in
  let '(force_tmp, torque_tmp) :=
    GetForceTorque p_self moment_world p_other m_other in
  let force := Vadd force force_tmp in
  let torque := Vadd torque torque_tmp in
  let mfs_tmp := GetMFS p_self p_other m_other in
  let mfs := Vadd mfs mfs_tmp in
  let applied :=
    mkApplied force_tmp torque_tmp
      (Vmuls force_tmp (of_Z (-1))) (Vmuls torque_tmp (of_Z (-1))) in
  let '(st', out) := PublishData st cur_time force torque mfs in
  (st', applied, out).

End Plugin.

Arguments Magnet T : clear implicits.
Arguments DipoleMagnetPair T : clear implicits.
Arguments Published T : clear implicits.
Arguments Applied T : clear implicits.
Arguments WrenchStamped T : clear implicits.
Arguments MagneticField T : clear implicits.

(** ** Load *)

Section Loading.
Context {T : Type} `{Scalar T}.

(** The plugin's [<plugin>] element as [Load] reads it: the child elements
    in document order, each with its name and its parsed value. *)
Inductive SdfValue : Type :=
| SdfString (s : string)
| SdfBool (b : bool)
| SdfDouble (d : T)
| SdfVector3d (v : Vector3 T).

Definition sdf_Element : Type := list (string * SdfValue).

Fixpoint sdf_find (sdf : sdf_Element) (name : string) : option SdfValue :=
  match sdf with
  | [] => None
  | (k, v) :: rest => if String.eqb k name then Some v else sdf_find rest name
  end.

(** [sdf::Element::HasElement] *)
Definition HasElement (sdf : sdf_Element) (name : string) : bool :=
  match sdf_find sdf name with Some _ => true | None => false end.

(** [sdf::Element::Get<T>(key)]: the value of the first child of that name,
    and a default-constructed [T] when there is none or it does not parse
    as a [T]. *)
Definition Get_string (sdf : sdf_Element) (name : string) : string :=
  match sdf_find sdf name with Some (SdfString s) => s | _ => EmptyString end.

Definition Get_bool (sdf : sdf_Element) (name : string) : bool :=
  match sdf_find sdf name with Some (SdfBool b) => b | _ => false end.

Definition Get_double (sdf : sdf_Element) (name : string) : T :=
  match sdf_find sdf name with Some (SdfDouble d) => d | _ => of_Z 0 end.

Definition Get_Vector3d (sdf : sdf_Element) (name : string) : Vector3 T :=
  match sdf_find sdf name with
  | Some (SdfVector3d v) => v
  | _ => Vector3_Zero
  end.

(** [physics::Model::GetLink]: the link of that name, or null. *)
Definition GetLink (links : list string) (name : string) : option string :=
  if existsb (String.eqb name) links then Some name else None.

(** [ignition::math::Quaterniond(const Vector3d &_rpy)], the quaternion of
    three Euler angles, is library code built on [sin] and [cos]. *)
Variable Quaternion_of_Euler : Vector3 T -> Quaternion T.

Definition set_first_moment (m : Magnet T * Magnet T) (v : Vector3 T) :=
  (mkMagnet v (offset (fst m)), snd m).
Definition set_second_moment (m : Magnet T * Magnet T) (v : Vector3 T) :=
  (fst m, mkMagnet v (offset (snd m))).
Definition set_first_offset_Pos (m : Magnet T * Magnet T) (v : Vector3 T) :=
  (mkMagnet (moment (fst m)) (mkPose3 v (Rot (offset (fst m)))), snd m).
Definition set_first_offset_Rot (m : Magnet T * Magnet T) (q : Quaternion T) :=
  (mkMagnet (moment (fst m)) (mkPose3 (Pos (offset (fst m))) q), snd m).
Definition set_second_offset_Rot (m : Magnet T * Magnet T) (q : Quaternion T) :=
  (fst m, mkMagnet (moment (snd m)) (mkPose3 (Pos (offset (snd m))) q)).

(** Lines 106-130: the moments and offsets of the two magnets. *)
Definition Load_magnets (sdf : sdf_Element) (m : Magnet T * Magnet T)
    : Magnet T * Magnet T :=
  let m := if HasElement sdf "parent_dipole_moment"
           then set_first_moment m (Get_Vector3d sdf "parent_dipole_moment")
           else m in
  let m := if HasElement sdf "child_dipole_moment"
           then set_second_moment m (Get_Vector3d sdf "child_dipole_moment")
           else m in
  let m := if HasElement sdf "parentxyzOffset"
           then set_first_offset_Pos m (Get_Vector3d sdf "xyzOffset")
           else m in
  let m := if HasElement sdf "childxyzOffset"
           then set_first_offset_Pos m (Get_Vector3d sdf "xyzOffset")
           else m in
  let m := if HasElement sdf "parentrpyOffset"
           then set_first_offset_Rot m
                  (Quaternion_of_Euler (Get_Vector3d sdf "rpyOffset"))
           else m in
  let m := if HasElement sdf "childrpyOffset"
           then set_second_offset_Rot m
                  (Quaternion_of_Euler (Get_Vector3d sdf "rpyOffset"))
           else m in
  m.

(** [Load]: [links] are the names of the links of [_parent],
    [ros_initialized] the value of [ros::isInitialized()], [st] the object
    as constructed.  Every [return] of the source yields the state reached
    so far. *)
Definition Load (st : DipoleMagnetPair T) (links : list string)
    (sdf : sdf_Element) (ros_initialized : bool) : DipoleMagnetPair T :=
  let mag0 := (Magnet_default, Magnet_default) in
  let st0 :=
    mkDipoleMagnetPair (link st) mag0 (link_name st) EmptyString
      (topic_ns st) (should_publish st) (rosnode st) (wrench_msg st)
      (mfs_msg st) (connect_count st) (last_time st) (update_rate st)
      (update_connection st) in
  if negb (HasElement sdf "parentBodyName") then st0 else
  let name1 := Get_string sdf "parentBodyName" in
  let names := (name1, snd (link_name st)) in
  let st1 :=
    mkDipoleMagnetPair (link st) mag0 names EmptyString
      (topic_ns st) (should_publish st) (rosnode st) (wrench_msg st)
      (mfs_msg st) (connect_count st) (last_time st) (update_rate st)
      (update_connection st) in
  if negb (HasElement sdf "childBodyName") then st1 else
  let name2 := Get_string sdf "childBodyName" in
  let names := (name1, name2) in
  let link1 := GetLink links name1 in
  let st2 :=
    mkDipoleMagnetPair (link1, snd (link st)) mag0 names EmptyString
      (topic_ns st) (should_publish st) (rosnode st) (wrench_msg st)
      (mfs_msg st) (connect_count st) (last_time st) (update_rate st)
      (update_connection st) in
  match link1 with None => st2 | Some _ =>
  let link2 := GetLink links name2 in
  let st3 :=
    mkDipoleMagnetPair (link1, link2) mag0 names EmptyString
      (topic_ns st) (should_publish st) (rosnode st) (wrench_msg st)
      (mfs_msg st) (connect_count st) (last_time st) (update_rate st)
      (update_connection st) in
  match link2 with None => st3 | Some _ =>
  let publish :=
    if HasElement sdf "shouldPublish" then Get_bool sdf "shouldPublish"
    else false in
  let rate :=
    if negb (HasElement sdf "updateRate") then of_Z 0
    else Get_double sdf "updateRate" in
  let mags := Load_magnets sdf mag0 in
  if publish then
    let ns := if negb (HasElement sdf "topicNs") then topic_ns st
              else Get_string sdf "topicNs" in
    if negb ros_initialized then
      mkDipoleMagnetPair (link1, link2) mags names EmptyString ns
        publish (rosnode st) (wrench_msg st) (mfs_msg st)
        (connect_count st) (last_time st) rate (update_connection st)
    else
      mkDipoleMagnetPair (link1, link2) mags names EmptyString ns
        publish true (wrench_msg st) (mfs_msg st)
        (connect_count st) (last_time st) rate true
  else
    mkDipoleMagnetPair (link1, link2) mags names EmptyString (topic_ns st)
      publish (rosnode st) (wrench_msg st) (mfs_msg st)
      (connect_count st) (last_time st) rate true
  end end.

(** [Load] reaches the magnet parameters when both body names are given
    and both links exist. *)
Definition Load_proceeds (links : list string) (sdf : sdf_Element) : bool :=
  HasElement sdf "parentBodyName" && HasElement sdf "childBodyName" &&
  match GetLink links (Get_string sdf "parentBodyName"),
        GetLink links (Get_string sdf "childBodyName") with
  | Some _, Some _ => true
  | _, _ => false
  end.

End Loading.

Arguments SdfValue T : clear implicits.
Arguments sdf_Element T : clear implicits.

(** [DipoleMagnetPair()]: the constructor sets [connect_count] only.  The
    strings, messages and [last_time] are default-constructed;
    [should_publish] and [update_rate] start indeterminate, so they are
    arguments here. *)
Definition DipoleMagnetPair_new {T} `{Scalar T} (should_publish0 : bool)
    (update_rate0 : T) : DipoleMagnetPair T :=
  mkDipoleMagnetPair (None, None) (Magnet_default, Magnet_default)
    (EmptyString, EmptyString) EmptyString EmptyString should_publish0 false
    (mkWrenchStamped EmptyString Time_Zero Vector3_Zero Vector3_Zero)
    (mkMagneticField EmptyString Time_Zero Vector3_Zero)
    0%Z Time_Zero update_rate0 false.

(** ** Executions *)

Section Executions.
Context {T : Type} `{Scalar T}.

(** What happens to the plugin between two calls: a subscriber connects or
    disconnects, or a world update calls [PublishData] at simulation time
    [cur_time]. *)
Inductive Event : Type :=
| EvConnect
| EvDisconnect
| EvPublish (cur_time : Time) (force torque mfs : Vector3 T).

Definition step (st : DipoleMagnetPair T) (e : Event)
    : DipoleMagnetPair T * list (Published T) :=
  match e with
  | EvConnect => (Connect st, [])
  | EvDisconnect => (Disconnect st, [])
  | EvPublish cur_time force torque mfs =>
      PublishData st cur_time force torque mfs
  end.

(** The state after a sequence of events and every message published on
    the way, oldest first. *)
Fixpoint run (st : DipoleMagnetPair T) (evs : list Event)
    : DipoleMagnetPair T * list (Published T) :=
  match evs with
  | [] => (st, [])
  | e :: rest =>
      let '(st1, out1) := step st e in
      let '(st2, out2) := run st1 rest in
      (st2, out1 ++ out2)
  end.

Definition stamp_of (p : Published T) : Time :=
  match p with
  | PubWrench m => wrench_stamp m
  | PubMfs m => mfs_stamp m
  end.

End Executions.

Arguments Event T : clear implicits.

(** ** The formulas of the design document

    Section 4 of the design document, written over the reals with the
    textbook vector operations, independently of the code above. *)

Module Spec.
Local Open Scope R_scope.

Definition vec (x y z : R) : Vector3 R := mkVector3 x y z.

Definition plus (a b : Vector3 R) : Vector3 R :=
  vec (vX a + vX b) (vY a + vY b) (vZ a + vZ b).
Definition minus (a b : Vector3 R) : Vector3 R :=
  vec (vX a - vX b) (vY a - vY b) (vZ a - vZ b).
Definition scale (c : R) (a : Vector3 R) : Vector3 R :=
  vec (c * vX a) (c * vY a) (c * vZ a).
Definition dot (a b : Vector3 R) : R :=
  vX a * vX b + vY a * vY b + vZ a * vZ b.
Definition cross (a b : Vector3 R) : Vector3 R :=
  vec (vY a * vZ b - vZ a * vY b)
      (vZ a * vX b - vX a * vZ b)
      (vX a * vY b - vY a * vX b).
Definition norm (a : Vector3 R) : R := R_sqrt.sqrt (dot a a).

(** r = pSelf.position - pOther.position; d = |r|; rHat = r/d *)
Definition r (pSelf pOther : Pose3 R) : Vector3 R :=
  minus (Pos pSelf) (Pos pOther).
Definition d (pSelf pOther : Pose3 R) : R := norm (r pSelf pOther).
Definition rHat (pSelf pOther : Pose3 R) : Vector3 R :=
  scale (/ d pSelf pOther) (r pSelf pOther).

(** Kf = 3 * 1e-7 / d^4 and the force of 4.2, step 4 *)
Definition Kf (pSelf pOther : Pose3 R) : R := 3 * 1e-7 / d pSelf pOther ^ 4.

Definition force (pSelf : Pose3 R) (mSelf : Vector3 R) (pOther : Pose3 R)
    (mOther : Vector3 R) : Vector3 R :=
  let rh := rHat pSelf pOther in
  scale (Kf pSelf pOther)
    (minus
       (plus (plus (scale (dot mSelf rh) mOther) (scale (dot mOther rh) mSelf))
             (scale (dot mSelf mOther) rh))
       (scale (5 * dot mSelf rh * dot mOther rh) rh)).

(** Kt = 1e-7 / d^3, B = Kt * (3*(mOther.rHat)*rHat - mOther) *)
Definition Kt (pSelf pOther : Pose3 R) : R := 1e-7 / d pSelf pOther ^ 3.

Definition B_world (pSelf pOther : Pose3 R) (mOther : Vector3 R)
    : Vector3 R :=
  let rh := rHat pSelf pOther in
  scale (Kt pSelf pOther) (minus (scale (3 * dot mOther rh) rh) mOther).

(** torque = mSelf x B *)
Definition torque (pSelf : Pose3 R) (mSelf : Vector3 R) (pOther : Pose3 R)
    (mOther : Vector3 R) : Vector3 R :=
  cross mSelf (B_world pSelf pOther mOther).

(** The squared norm of a rotation; a valid unit rotation has norm 1. *)
Definition qnorm2 (q : Quaternion R) : R :=
  qw q * qw q + qx q * qx q + qy q * qy q + qz q * qz q.
Definition unit (q : Quaternion R) : Prop := qnorm2 q = 1.

(** The conjugate, the inverse of a unit rotation. *)
Definition conj (q : Quaternion R) : Quaternion R :=
  mkQuaternion (qw q) (- qx q) (- qy q) (- qz q).

(** Composition of rotations: the Hamilton product, scalar part
    [a0 b0 - a.b], vector part [a0 b + b0 a + a x b]. *)
Definition compose (a b : Quaternion R) : Quaternion R :=
  mkQuaternion
    (qw a * qw b - (qx a * qx b + qy a * qy b + qz a * qz b))
    (qw a * qx b + qw b * qx a + (qy a * qz b - qz a * qy b))
    (qw a * qy b + qw b * qy a + (qz a * qx b - qx a * qz b))
    (qw a * qz b + qw b * qz a + (qx a * qy b - qy a * qx b)).

Definition pure (v : Vector3 R) : Quaternion R :=
  mkQuaternion 0 (vX v) (vY v) (vZ v).
Definition vpart (q : Quaternion R) : Vector3 R :=
  vec (qx q) (qy q) (qz q).

(** Rotating a body-frame vector into the world frame, [q v q*], and the
    reverse rotation of a world-frame vector into the body frame,
    [q* v q]. *)
Definition rotate (q : Quaternion R) (v : Vector3 R) : Vector3 R :=
  vpart (compose (compose q (pure v)) (conj q)).
Definition inverseRotate (q : Quaternion R) (v : Vector3 R) : Vector3 R :=
  vpart (compose (compose (conj q) (pure v)) q).

End Spec.

(** ** Concrete inputs *)

(** Two poses to instantiate the theorems at: the origin, and the point
    (x, y, z), both with the identity orientation. *)
Definition pose_at (x y z : R) : Pose3 R :=
  mkPose3 (mkVector3 x y z) (mkQuaternion 1 0 0 0)%R.

(** The vector whose three components are NaN. *)
Definition nan3 : Vector3 float := mkVector3 nan nan nan.


(** The concrete case in binary64: the self dipole at (1,0,0), the other at
    the origin, both moments (1,0,0). *)
Definition aligned_force_double (libm_pow : float -> float -> float)
    (q1 q2 : Quaternion float) : Vector3 float :=
  fst (@GetForceTorque float (DoubleScalar libm_pow)
         (mkPose3 (mkVector3 1 0 0) q1) (mkVector3 1 0 0)
         (mkPose3 (mkVector3 0 0 0) q2) (mkVector3 1 0 0))%float.

(** A configuration that names both bodies and gives each magnet an
    offset position, but has no [xyzOffset] element. *)
Definition sdf_two_offsets : sdf_Element R :=
  [ ("parentBodyName"%string, SdfString "base");
    ("childBodyName"%string, SdfString "tip");
    ("parentxyzOffset"%string, SdfVector3d (mkVector3 1 2 3)%R);
    ("childxyzOffset"%string, SdfVector3d (mkVector3 4 5 6)%R) ].

(** A configuration that enables publishing at 1 Hz. *)
Definition sdf_publishing : sdf_Element float :=
  [ ("parentBodyName"%string, SdfString "base");
    ("childBodyName"%string, SdfString "tip");
    ("shouldPublish"%string, SdfBool true);
    ("updateRate"%string, SdfDouble 1%float) ].

(** The plugin in binary64, loaded with [sdf_publishing], with one
    subscriber connected. *)
Definition publishing_plugin : DipoleMagnetPair float :=
  @Connect float
    (@Load float (DoubleScalar pow_mul) (fun _ => mkQuaternion 1 0 0 0)%float
       (@DipoleMagnetPair_new float (DoubleScalar pow_mul) false 0%float)
       ["base"; "tip"]%string sdf_publishing true).

(** ** The destructor *)

Section Destructor.
Context {T : Type} `{Scalar T}.

(** [~DipoleMagnetPair]: the update connection is reset; with
    [should_publish] set, the queue is cleared and the node handle shut
    down and deleted.  [rosnode] is a raw pointer that only [Load] assigns:
    using it where no node handle was created has no defined result,
    [None] here. *)
Definition Destroy (st : DipoleMagnetPair T) : option (DipoleMagnetPair T) :=
  let st1 :=
    mkDipoleMagnetPair (link st) (mag st) (link_name st) (robot_namespace st)
      (topic_ns st) (should_publish st) (rosnode st) (wrench_msg st)
      (mfs_msg st) (connect_count st) (last_time st) (update_rate st) false in
  if should_publish st then
    if rosnode st then
      Some (mkDipoleMagnetPair (link st) (mag st) (link_name st)
              (robot_namespace st) (topic_ns st) (should_publish st) false
              (wrench_msg st) (mfs_msg st) (connect_count st) (last_time st)
              (update_rate st) false)
    else None
  else Some st1.

End Destructor.

(** ** Notions used by the further properties *)

Section Notions.
Context {T : Type} `{Scalar T}.

(** The value [Load] gives [should_publish]: false unless a
    [shouldPublish] element says true. *)
Definition Load_shouldPublish (sdf : sdf_Element T) : bool :=
  HasElement sdf "shouldPublish" && Get_bool sdf "shouldPublish".

(** Connections minus disconnections in a sequence of events. *)
Fixpoint connect_delta (evs : list (Event T)) : Z :=
  match evs with
  | [] => 0
  | EvConnect :: rest => 1 + connect_delta rest
  | EvDisconnect :: rest => -1 + connect_delta rest
  | EvPublish _ _ _ _ :: rest => connect_delta rest
  end.

(** Every value the subscriber count takes in a sequence of events that
    starts at [c] lies in the range of [int]: no increment or decrement
    overflows. *)
Fixpoint counts_in_range (c : Z) (evs : list (Event T)) : bool :=
  match evs with
  | [] => in_int_range c
  | e :: rest =>
      in_int_range c && counts_in_range (c + connect_delta [e]) rest
  end.

Definition is_publish (e : Event T) : bool :=
  match e with EvPublish _ _ _ _ => true | _ => false end.

Definition is_connect (e : Event T) : bool :=
  match e with EvConnect => true | _ => false end.

(** The two messages of one publication: the wrench in frame "world", then
    the field in the frame of the parent link, both stamped with the
    simulation time of the call. *)
Definition messages_of (st : DipoleMagnetPair T) (e : Event T)
    : list (Published T) :=
  match e with
  | EvPublish cur_time force torque mfs =>
      [ PubWrench (mkWrenchStamped "world" cur_time force torque);
        PubMfs (mkMagneticField (fst (link_name st)) cur_time mfs) ]
  | _ => []
  end.

(** Every member but the subscriber count and the two message buffers. *)
Definition configuration (st : DipoleMagnetPair T) :=
  (link st, mag st, link_name st, robot_namespace st, topic_ns st,
   should_publish st, rosnode st, last_time st, update_rate st,
   update_connection st).

End Notions.

(** Both positions moved by the same vector. *)
Definition translate (t : Vector3 R) (p : Pose3 R) : Pose3 R :=
  mkPose3 (Vadd (Pos p) t) (Rot p).

(** No wrench, and a wrench of NaNs. *)
Definition Applied_zero : Applied R :=
  let z := mkVector3 0%R 0%R 0%R in mkApplied z z z z.

Definition Applied_nan : Applied float := mkApplied nan3 nan3 nan3 nan3.

(** Further concrete inputs: a pose in binary64, a plugin as constructed in
    each arithmetic, a configuration with both moments and both
    orientation offsets, and one that asks for publishing. *)
Definition cog_double : Pose3 float :=
  (mkPose3 (mkVector3 1 2 3) (mkQuaternion 1 0 0 0))%float.

Definition new_plugin_R : DipoleMagnetPair R :=
  DipoleMagnetPair_new false 0%R.

Definition new_plugin_double : DipoleMagnetPair float :=
  @DipoleMagnetPair_new float (DoubleScalar pow_mul) false 0%float.

Definition sdf_full : sdf_Element R :=
  [ ("parentBodyName"%string, SdfString "base");
    ("childBodyName"%string, SdfString "tip");
    ("updateRate"%string, SdfDouble 50%R);
    ("parent_dipole_moment"%string, SdfVector3d (mkVector3 0 0 1)%R);
    ("child_dipole_moment"%string, SdfVector3d (mkVector3 0 0 2)%R);
    ("parentrpyOffset"%string, SdfVector3d (mkVector3 1 0 0)%R);
    ("childrpyOffset"%string, SdfVector3d (mkVector3 0 1 0)%R);
    ("rpyOffset"%string, SdfVector3d (mkVector3 0 0 1)%R) ].

Definition sdf_publishing_R : sdf_Element R :=
  [ ("parentBodyName"%string, SdfString "base");
    ("childBodyName"%string, SdfString "tip");
    ("shouldPublish"%string, SdfBool true) ].

(** A stand-in for the Euler-angle constructor: the angles kept as the
    vector part. *)
Definition Euler_stub (v : Vector3 R) : Quaternion R :=
  mkQuaternion 0%R (vX v) (vY v) (vZ v).

(** * Properties *)

(** ** Real arithmetic *)

Section RealFacts.
Local Open Scope R_scope.

Lemma lit_R_3 : @lit R _ 3 0 = 3.
Proof. reflexivity. Qed.

Lemma lit_R_1 : @lit R _ 1 0 = 1.
Proof. reflexivity. Qed.

Lemma lit_R_0 : @lit R _ 0 0 = 0.
Proof. reflexivity. Qed.

Lemma lit_R_1em7 : @lit R _ 1 (-7) = 1e-7.
Proof. unfold lit; simpl. lra. Qed.

Lemma lit_R_1em6 : @lit R _ 1 (-6) = 1e-6.
Proof. unfold lit; simpl. lra. Qed.

End RealFacts.

(** Reads the [Scalar] operations at the real instance. *)
Ltac real_ops :=
  cbn [s_add s_sub s_mul s_div s_neg s_sqrt s_powi s_abs s_ltb s_leb of_Z
       RealScalar vX vY vZ qw qx qy qz Pos Rot fst snd] in *;
  change (Z.to_nat 2) with 2%nat in *;
  change (Z.to_nat 3) with 3%nat in *;
  change (Z.to_nat 4) with 4%nat in *;
  rewrite ?lit_R_3, ?lit_R_1, ?lit_R_0, ?lit_R_1em7, ?lit_R_1em6 in *.

(** Unfolds the vector operations of the code and of the document. *)
Ltac vec_ops :=
  cbv [sVmul Vsub Vadd Vneg Vmuls Vdivs Dot Cross
       Spec.scale Spec.minus Spec.plus Spec.dot Spec.cross Spec.vec
       vX vY vZ] in *.

Section RealVectors.
Local Open Scope R_scope.

Lemma SquaredLength_R (v : Vector3 R) : SquaredLength v = Spec.dot v v.
Proof. unfold SquaredLength, Spec.dot; real_ops. ring. Qed.

Lemma Length_R (v : Vector3 R) : Length v = Spec.norm v.
Proof. unfold Length, Spec.norm. rewrite SquaredLength_R. reflexivity. Qed.

Lemma dot_self_zero (v : Vector3 R) :
  Spec.dot v v = 0 -> v = mkVector3 0 0 0.
Proof.
  destruct v as [x y z]; unfold Spec.dot; cbn; intros Hs.
  assert (x = 0) by nra. assert (y = 0) by nra. assert (z = 0) by nra.
  subst; reflexivity.
Qed.

(** Distinct positions are a positive distance apart. *)
Lemma d_pos (a b : Pose3 R) : Pos a <> Pos b -> 0 < Spec.d a b.
Proof.
  intros Hne. unfold Spec.d, Spec.norm.
  apply sqrt_lt_R0.
  assert (Hge : 0 <= Spec.dot (Spec.r a b) (Spec.r a b)).
  { unfold Spec.dot. nra. }
  destruct Hge as [Hlt | Heq]; [exact Hlt|].
  exfalso; apply Hne.
  symmetry in Heq. apply dot_self_zero in Heq.
  destruct a as [[ax ay az] ra], b as [[bx by_ bz] rb]; cbn in *.
  unfold Spec.r, Spec.minus, Spec.vec in Heq; cbn in Heq.
  injection Heq as Hx Hy Hz.
  f_equal; lra.
Qed.

Lemma d_swap (a b : Pose3 R) : Spec.d b a = Spec.d a b.
Proof.
  unfold Spec.d, Spec.norm, Spec.r. f_equal.
  destruct a as [[ax ay az] ra], b as [[bx by_ bz] rb].
  vec_ops; real_ops. ring.
Qed.

Lemma Length_sub_d (a b : Pose3 R) :
  Length (Vsub (Pos a) (Pos b)) = Spec.d a b.
Proof. rewrite Length_R. reflexivity. Qed.

End RealVectors.

Lemma pose_at_distinct : Pos (pose_at 1 0 0) <> Pos (pose_at 0 0 0).
Proof. cbn. intros Heq. injection Heq as Hx. lra. Qed.

(** ** The force and torque formulas *)

Section ForceTorque.
Local Open Scope R_scope.

Lemma force_Spec (p_self : Pose3 R) (m_self : Vector3 R)
    (p_other : Pose3 R) (m_other : Vector3 R) :
  Pos p_self <> Pos p_other ->
  fst (GetForceTorque p_self m_self p_other m_other)
  = Spec.force p_self m_self p_other m_other.
Proof.
  intros Hne. pose proof (d_pos p_self p_other Hne) as Hd.
  unfold GetForceTorque; cbn [fst].
  rewrite !Length_sub_d.
  unfold Spec.force, Spec.Kf, Spec.rHat.
  set (d := Spec.d p_self p_other) in *.
  destruct p_self as [[ax ay az] ra], p_other as [[bx by_ bz] rb],
    m_self as [sx sy sz], m_other as [ox oy oz].
  unfold Spec.r. vec_ops. real_ops.
  f_equal; field; lra.
Qed.

(** C1: at distinct positions the force returned by [GetForceTorque] is
    Kf * (mOther (mSelf.rHat) + mSelf (mOther.rHat) + rHat (mSelf.mOther)
    - 5 rHat (mSelf.rHat) (mOther.rHat)) with Kf = 3 * 1e-7 / d^4. *)
Theorem GetForceTorque_force (p_self : Pose3 R) (m_self : Vector3 R)
    (p_other : Pose3 R) (m_other : Vector3 R) :
  Pos p_self <> Pos p_other ->
  fst (GetForceTorque p_self m_self p_other m_other)
  = Spec.force p_self m_self p_other m_other.
Proof. apply force_Spec. Qed.

Lemma GetForceTorque_force_witness :
  Pos (pose_at 1 0 0) <> Pos (pose_at 0 0 0) /\
  fst (GetForceTorque (pose_at 1 0 0) (mkVector3 0 1 0)
         (pose_at 0 0 0) (mkVector3 0 0 1))
  = Spec.force (pose_at 1 0 0) (mkVector3 0 1 0)
      (pose_at 0 0 0) (mkVector3 0 0 1).
Proof.
  split; [exact pose_at_distinct|].
  apply GetForceTorque_force. exact pose_at_distinct.
Defined.

Lemma torque_Spec (p_self : Pose3 R) (m_self : Vector3 R)
    (p_other : Pose3 R) (m_other : Vector3 R) :
  Pos p_self <> Pos p_other ->
  snd (GetForceTorque p_self m_self p_other m_other)
  = Spec.torque p_self m_self p_other m_other.
Proof.
  intros Hne. pose proof (d_pos p_self p_other Hne) as Hd.
  unfold GetForceTorque; cbn [snd].
  rewrite !Length_sub_d.
  unfold Spec.torque, Spec.B_world, Spec.Kt, Spec.rHat.
  set (d := Spec.d p_self p_other) in *.
  destruct p_self as [[ax ay az] ra], p_other as [[bx by_ bz] rb],
    m_self as [sx sy sz], m_other as [ox oy oz].
  unfold Spec.r. vec_ops. real_ops.
  f_equal; field; lra.
Qed.

(** C3: at distinct positions the torque returned by [GetForceTorque] is
    mSelf x B with B = Kt * (3 (mOther.rHat) rHat - mOther) and
    Kt = 1e-7 / d^3. *)
Theorem GetForceTorque_torque (p_self : Pose3 R) (m_self : Vector3 R)
    (p_other : Pose3 R) (m_other : Vector3 R) :
  Pos p_self <> Pos p_other ->
  snd (GetForceTorque p_self m_self p_other m_other)
  = Spec.torque p_self m_self p_other m_other.
Proof. apply torque_Spec. Qed.

Lemma GetForceTorque_torque_witness :
  Pos (pose_at 1 0 0) <> Pos (pose_at 0 0 0) /\
  snd (GetForceTorque (pose_at 1 0 0) (mkVector3 0 1 0)
         (pose_at 0 0 0) (mkVector3 0 0 1))
  = Spec.torque (pose_at 1 0 0) (mkVector3 0 1 0)
      (pose_at 0 0 0) (mkVector3 0 0 1).
Proof.
  split; [exact pose_at_distinct|].
  apply GetForceTorque_torque. exact pose_at_distinct.
Defined.



End ForceTorque.

(** ** Exchanging the dipoles in binary64 *)



(** ** Rotations *)

Section Rotations.
Local Open Scope R_scope.

Ltac quat_ops :=
  cbv [Spec.rotate Spec.inverseRotate Spec.vpart Spec.compose Spec.conj
       Spec.pure Spec.qnorm2 Spec.vec Qmul qw qx qy qz vX vY vZ] in *.

Lemma equal_R_false (s : R) : 1e-6 < Rabs s -> equal s (of_Z 0) = false.
Proof.
  intros Hs. unfold equal. real_ops. unfold Rleb.
  replace (s - 0) with s by ring.
  destruct (Rle_dec (Rabs s) 1e-6) as [Hle | Hnle]; [lra | reflexivity].
Qed.

(** On a unit quaternion [Inverse] is the conjugate. *)
Lemma Inverse_unit (q : Quaternion R) : Spec.unit q -> Inverse q = Spec.conj q.
Proof.
  unfold Spec.unit, Spec.qnorm2, Inverse, Spec.conj. intros Hu. real_ops.
  rewrite Hu, equal_R_false.
  - f_equal; field.
  - rewrite Rabs_R1. lra.
Qed.

Lemma RotateVector_unit (q : Quaternion R) (v : Vector3 R) :
  Spec.unit q -> RotateVector q v = Spec.rotate q v.
Proof.
  intros Hu. unfold RotateVector. rewrite (Inverse_unit Hu).
  quat_ops. vec_ops. real_ops. f_equal; ring.
Qed.

Lemma RotateVectorReverse_unit (q : Quaternion R) (v : Vector3 R) :
  Spec.unit q -> RotateVectorReverse q v = Spec.inverseRotate q v.
Proof.
  intros Hu. unfold RotateVectorReverse. rewrite (Inverse_unit Hu).
  quat_ops. vec_ops. real_ops. f_equal; ring.
Qed.

(** The reverse rotation undoes the rotation. *)
Lemma inverseRotate_rotate (q : Quaternion R) (v : Vector3 R) :
  Spec.unit q -> Spec.inverseRotate q (Spec.rotate q v) = v.
Proof.
  unfold Spec.unit. intros Hu.
  destruct q as [w x y z], v as [a b c].
  quat_ops. vec_ops. cbn in *.
  assert (Hs : forall t,
    (w*w + x*x + y*y + z*z) * (w*w + x*x + y*y + z*z) * t = t)
    by (intros; rewrite Hu; ring).
  f_equal.
  - transitivity ((w*w + x*x + y*y + z*z) * (w*w + x*x + y*y + z*z) * a);
      [ring | apply Hs].
  - transitivity ((w*w + x*x + y*y + z*z) * (w*w + x*x + y*y + z*z) * b);
      [ring | apply Hs].
  - transitivity ((w*w + x*x + y*y + z*z) * (w*w + x*x + y*y + z*z) * c);
      [ring | apply Hs].
Qed.

(** A unit rotation keeps lengths. *)
Lemma inverseRotate_norm (q : Quaternion R) (v : Vector3 R) :
  Spec.unit q -> Spec.norm (Spec.inverseRotate q v) = Spec.norm v.
Proof.
  unfold Spec.unit. intros Hu. unfold Spec.norm. apply (f_equal R_sqrt.sqrt).
  destruct q as [w x y z], v as [a b c].
  quat_ops. vec_ops. cbn in *.
  replace (a * a + b * b + c * c)
    with ((w*w + x*x + y*y + z*z) * (w*w + x*x + y*y + z*z)
          * (a * a + b * b + c * c)) by (rewrite Hu; ring).
  ring.
Qed.

Lemma qnorm2_Qmul (a b : Quaternion R) :
  Spec.qnorm2 (Qmul a b) = Spec.qnorm2 a * Spec.qnorm2 b.
Proof. quat_ops. real_ops. ring. Qed.

Lemma qnorm2_conj (a : Quaternion R) : Spec.qnorm2 (Spec.conj a) = Spec.qnorm2 a.
Proof. quat_ops. real_ops. ring. Qed.

Lemma Qmul_compose (a b : Quaternion R) : Qmul a b = Spec.compose a b.
Proof. quat_ops. real_ops. f_equal; ring. Qed.

Lemma unit_identity : Spec.unit (mkQuaternion 1 0 0 0).
Proof. unfold Spec.unit, Spec.qnorm2; cbn. ring. Qed.

(** [RotateVectorReverse] is linear in the vector, whatever the
    quaternion. *)
Lemma RotateVectorReverse_scale (q : Quaternion R) (c : R) (v : Vector3 R) :
  RotateVectorReverse q (Spec.scale c v)
  = Spec.scale c (RotateVectorReverse q v).
Proof.
  unfold RotateVectorReverse. destruct (Inverse q) as [iw ix iy iz].
  quat_ops. vec_ops. real_ops. f_equal; ring.
Qed.

End Rotations.

(** ** The field sensor and the pose of a dipole *)

Section FieldAndPose.
Local Open Scope R_scope.

Lemma GetMFS_RotateVectorReverse (p_self p_other : Pose3 R)
    (m_other : Vector3 R) :
  Pos p_self <> Pos p_other ->
  GetMFS p_self p_other m_other
  = RotateVectorReverse (Rot p_self) (Spec.B_world p_self p_other m_other).
Proof.
  intros Hne. pose proof (d_pos p_self p_other Hne) as Hd.
  unfold GetMFS.
  match goal with
  | |- context [RotateVectorReverse _ ?B] =>
      replace B with (Spec.B_world p_self p_other m_other)
  end.
  - destruct (RotateVectorReverse _ _); reflexivity.
  - rewrite !Length_sub_d. unfold Spec.B_world, Spec.Kt, Spec.rHat.
    set (d := Spec.d p_self p_other) in *.
    destruct p_self as [[ax ay az] ra], p_other as [[bx by_ bz] rb],
      m_other as [ox oy oz].
    unfold Spec.r. vec_ops. real_ops. f_equal; field; lra.
Qed.

(** C4: at distinct positions [GetMFS] returns the reverse rotation, by the
    orientation of the self pose, of the world-frame field
    B_world = (1e-7/d^3) (3 (mOther.rHat) rHat - mOther); for a unit
    orientation that is the field expressed in the self body frame. *)
Theorem GetMFS_body_frame (p_self p_other : Pose3 R) (m_other : Vector3 R) :
  Pos p_self <> Pos p_other ->
  GetMFS p_self p_other m_other
  = RotateVectorReverse (Rot p_self) (Spec.B_world p_self p_other m_other) /\
  (Spec.unit (Rot p_self) ->
   GetMFS p_self p_other m_other
   = Spec.inverseRotate (Rot p_self) (Spec.B_world p_self p_other m_other)).
Proof.
  intros Hne. split.
  - apply GetMFS_RotateVectorReverse; exact Hne.
  - intros Hu. rewrite GetMFS_RotateVectorReverse by exact Hne.
    apply RotateVectorReverse_unit; exact Hu.
Qed.

Lemma GetMFS_body_frame_witness :
  Pos (pose_at 1 0 0) <> Pos (pose_at 0 0 0) /\
  Spec.unit (Rot (pose_at 1 0 0)) /\
  GetMFS (pose_at 1 0 0) (pose_at 0 0 0) (mkVector3 0 1 0)
  = Spec.inverseRotate (Rot (pose_at 1 0 0))
      (Spec.B_world (pose_at 1 0 0) (pose_at 0 0 0) (mkVector3 0 1 0)).
Proof.
  split; [exact pose_at_distinct|]. split; [exact unit_identity|].
  apply (GetMFS_body_frame (pose_at 1 0 0) (pose_at 0 0 0) (mkVector3 0 1 0)
           pose_at_distinct).
  exact unit_identity.
Defined.

(** [OnUpdate] hands the physics engine the force and torque of
    [GetForceTorque] at the two dipole poses, and their opposites. *)
Lemma OnUpdate_applied (st : DipoleMagnetPair R)
    (cog_first cog_second : Pose3 R) (cur_time : Time) :
  let p_self := dipole_pose cog_first (fst (mag st)) in
  let p_other := dipole_pose cog_second (snd (mag st)) in
  let ft :=
    GetForceTorque p_self (RotateVector (Rot p_self) (moment (fst (mag st))))
      p_other (RotateVector (Rot p_other) (moment (snd (mag st)))) in
  snd (fst (OnUpdate st cog_first cog_second cur_time))
  = mkApplied (fst ft) (snd ft)
      (Vmuls (fst ft) (-1)) (Vmuls (snd ft) (-1)).
Proof.
  cbv zeta. unfold OnUpdate.
  destruct (GetForceTorque _ _ _ _) as [force_tmp torque_tmp].
  destruct (PublishData _ _ _ _ _) as [st' out]. reflexivity.
Qed.

Lemma dipole_pose_Pos (cog : Pose3 R) (m : Magnet R) :
  Pos (dipole_pose cog m)
  = Spec.minus (Pos cog) (RotateVector (Rot cog) (Pos (offset m))).
Proof. unfold dipole_pose; cbn [Pos]. vec_ops. real_ops. f_equal; ring. Qed.

Lemma dipole_pose_Rot (cog : Pose3 R) (m : Magnet R) :
  Rot (dipole_pose cog m) = Qmul (Rot cog) (Inverse (Rot (offset m))).
Proof. reflexivity. Qed.

(** C5: the pose of a dipole has the position of the body minus the
    rotated offset position, and the orientation of the body composed with
    the inverse of the offset orientation; it is a unit rotation when body
    and offset orientations are. *)
Theorem dipole_pose_resolved (cog : Pose3 R) (m : Magnet R) :
  Spec.unit (Rot cog) -> Spec.unit (Rot (offset m)) ->
  Pos (dipole_pose cog m)
  = Spec.minus (Pos cog) (Spec.rotate (Rot cog) (Pos (offset m))) /\
  Rot (dipole_pose cog m)
  = Spec.compose (Rot cog) (Spec.conj (Rot (offset m))) /\
  Spec.unit (Rot (dipole_pose cog m)).
Proof.
  intros Hc Ho.
  rewrite dipole_pose_Pos, dipole_pose_Rot, (Inverse_unit Ho),
    (RotateVector_unit _ Hc).
  split; [reflexivity|]. split; [apply Qmul_compose|].
  unfold Spec.unit in *. rewrite qnorm2_Qmul, qnorm2_conj, Hc, Ho. ring.
Qed.

Lemma dipole_pose_resolved_witness :
  Spec.unit (Rot (pose_at 1 2 3)) /\
  Spec.unit (Rot (offset (mkMagnet (mkVector3 0 0 1) (pose_at 0 1 0)))) /\
  Spec.unit
    (Rot (dipole_pose (pose_at 1 2 3)
            (mkMagnet (mkVector3 0 0 1) (pose_at 0 1 0)))).
Proof.
  split; [exact unit_identity|]. split; [exact unit_identity|].
  apply (dipole_pose_resolved (pose_at 1 2 3)
           (mkMagnet (mkVector3 0 0 1) (pose_at 0 1 0))
           unit_identity unit_identity).
Defined.

End FieldAndPose.

(** ** Aligned dipoles, end to end *)

Section Aligned.

Lemma aligned_force_R (q1 q2 : Quaternion R) :
  fst (GetForceTorque (mkPose3 (mkVector3 1 0 0) q1) (mkVector3 1 0 0)
         (mkPose3 (mkVector3 0 0 0) q2) (mkVector3 1 0 0))%R
  = mkVector3 (-6e-7)%R 0%R 0%R.
Proof.
  unfold GetForceTorque; cbn [fst].
  rewrite !Length_R. unfold Spec.norm. vec_ops; real_ops.
  replace ((1 - 0) * (1 - 0) + (0 - 0) * (0 - 0) + (0 - 0) * (0 - 0))%R
    with 1%R by ring.
  rewrite sqrt_1.
  f_equal; field.
Qed.

Lemma aligned_force_binary64 (libm_pow : float -> float -> float)
    (q1 q2 : Quaternion float) :
  (libm_pow 0 2 = 0)%float -> (libm_pow 1 2 = 1)%float ->
  (libm_pow 1 4 = 1)%float ->
  aligned_force_double libm_pow q1 q2 = mkVector3 (-6e-7)%float 0%float 0%float.
Proof.
  intros H02 H12 H14.
  unfold aligned_force_double, GetForceTorque, Length, SquaredLength.
  cbn [fst Pos vX vY vZ Vsub s_sub s_powi s_add s_sqrt DoubleScalar].
  change (float_of_Z 2) with 2%float. change (float_of_Z 4) with 4%float.
  change (1 - 0)%float with 1%float. change (0 - 0)%float with 0%float.
  rewrite H02, H12.
  change (PrimFloat.sqrt (1 + 0 + 0)) with 1%float.
  rewrite H14.
  vm_compute. reflexivity.
Qed.

(** C7: with both moments (1,0,0), the self dipole at (1,0,0) and the other
    at the origin, the force is exactly (-6e-7, 0, 0): in real arithmetic,
    and bit for bit in binary64 with a [pow] that is exact at 0 and 1. *)
Theorem GetForceTorque_aligned_attraction :
  (forall q1 q2 : Quaternion R,
     fst (GetForceTorque (mkPose3 (mkVector3 1 0 0) q1) (mkVector3 1 0 0)
            (mkPose3 (mkVector3 0 0 0) q2) (mkVector3 1 0 0))%R
     = mkVector3 (-6e-7)%R 0%R 0%R) /\
  (forall (libm_pow : float -> float -> float) (q1 q2 : Quaternion float),
     (libm_pow 0 2 = 0)%float -> (libm_pow 1 2 = 1)%float ->
     (libm_pow 1 4 = 1)%float ->
     aligned_force_double libm_pow q1 q2
     = mkVector3 (-6e-7)%float 0%float 0%float).
Proof.
  split.
  - exact aligned_force_R.
  - exact aligned_force_binary64.
Qed.

Lemma GetForceTorque_aligned_attraction_witness :
  aligned_force_double pow_mul (mkQuaternion 1 0 0 0)%float
    (mkQuaternion 1 0 0 0)%float
  = mkVector3 (-6e-7)%float 0%float 0%float.
Proof.
  apply (proj2 GetForceTorque_aligned_attraction); reflexivity.
Defined.

End Aligned.

(** ** Falloff with distance *)

Section Falloff.
Local Open Scope R_scope.

Lemma norm_scale (c : R) (v : Vector3 R) :
  0 <= c -> Spec.norm (Spec.scale c v) = c * Spec.norm v.
Proof.
  intros Hc. unfold Spec.norm.
  replace (Spec.dot (Spec.scale c v) (Spec.scale c v)) with (c * c * Spec.dot v v)
    by (vec_ops; ring).
  rewrite sqrt_mult_alt by nra.
  rewrite sqrt_square by exact Hc. reflexivity.
Qed.

Lemma d_scaled (a b a' b' : Pose3 R) (k : R) :
  0 < k -> Spec.r a' b' = Spec.scale k (Spec.r a b) ->
  Spec.d a' b' = k * Spec.d a b.
Proof.
  intros Hk Hr. unfold Spec.d. rewrite Hr. apply norm_scale. lra.
Qed.

Lemma scaled_positions_distinct (a b a' b' : Pose3 R) (k : R) :
  0 < k -> Pos a <> Pos b -> Spec.r a' b' = Spec.scale k (Spec.r a b) ->
  Pos a' <> Pos b'.
Proof.
  intros Hk Hne Hr Heq. apply Hne.
  destruct a as [[ax ay az] ra], b as [[bx by_ bz] rb],
    a' as [[ax' ay' az'] ra'], b' as [[bx' by' bz'] rb'].
  cbn in *. unfold Spec.r in Hr. vec_ops. cbn in Hr.
  injection Heq as Ex Ey Ez. injection Hr as Hx Hy Hz. subst.
  f_equal; nra.
Qed.

Lemma force_scaled (a b a' b' : Pose3 R) (ms mo : Vector3 R) (k : R) :
  0 < k -> Pos a <> Pos b -> Spec.r a' b' = Spec.scale k (Spec.r a b) ->
  Spec.force a' ms b' mo = Spec.scale (/ k ^ 4) (Spec.force a ms b mo).
Proof.
  intros Hk Hne Hr. pose proof (d_pos a b Hne) as Hd.
  unfold Spec.force, Spec.Kf, Spec.rHat.
  rewrite (d_scaled Hk Hr), Hr.
  set (d := Spec.d a b) in *. set (r := Spec.r a b).
  destruct r as [x y z], ms as [sx sy sz], mo as [ox oy oz].
  vec_ops. f_equal; field; lra.
Qed.

Lemma B_world_scaled (a b a' b' : Pose3 R) (mo : Vector3 R) (k : R) :
  0 < k -> Pos a <> Pos b -> Spec.r a' b' = Spec.scale k (Spec.r a b) ->
  Spec.B_world a' b' mo = Spec.scale (/ k ^ 3) (Spec.B_world a b mo).
Proof.
  intros Hk Hne Hr. pose proof (d_pos a b Hne) as Hd.
  unfold Spec.B_world, Spec.Kt, Spec.rHat.
  rewrite (d_scaled Hk Hr), Hr.
  set (d := Spec.d a b) in *. set (r := Spec.r a b).
  destruct r as [x y z], mo as [ox oy oz].
  vec_ops. f_equal; field; lra.
Qed.

Lemma cross_scale_r (c : R) (a b : Vector3 R) :
  Spec.cross a (Spec.scale c b) = Spec.scale c (Spec.cross a b).
Proof. vec_ops. f_equal; ring. Qed.

Lemma inv_pow_nonneg (k : R) (n : nat) : 0 < k -> 0 <= / k ^ n.
Proof.
  intros Hk. left. apply Rinv_0_lt_compat. apply pow_lt. exact Hk.
Qed.

(** C8: multiplying the separation vector by k > 0, with the moments (and
    the orientation of the self pose, or its being a unit rotation) kept,
    multiplies the magnitude of the force by 1/k^4 and the magnitudes of
    the torque and of the field of [GetMFS] by 1/k^3. *)
Theorem falloff_with_distance (p_self p_other p_self' p_other' : Pose3 R)
    (m_self m_other : Vector3 R) (k : R) :
  0 < k ->
  Pos p_self <> Pos p_other ->
  Spec.r p_self' p_other' = Spec.scale k (Spec.r p_self p_other) ->
  Rot p_self' = Rot p_self \/
    (Spec.unit (Rot p_self) /\ Spec.unit (Rot p_self')) ->
  Length (fst (GetForceTorque p_self' m_self p_other' m_other))
  = / k ^ 4 * Length (fst (GetForceTorque p_self m_self p_other m_other)) /\
  Length (snd (GetForceTorque p_self' m_self p_other' m_other))
  = / k ^ 3 * Length (snd (GetForceTorque p_self m_self p_other m_other)) /\
  Length (GetMFS p_self' p_other' m_other)
  = / k ^ 3 * Length (GetMFS p_self p_other m_other).
Proof.
  intros Hk Hne Hr Hrot.
  pose proof (scaled_positions_distinct Hk Hne Hr) as Hne'.
  rewrite !Length_R.
  rewrite (force_Spec p_self' m_self p_other' m_other Hne'),
    (force_Spec p_self m_self p_other m_other Hne),
    (torque_Spec p_self' m_self p_other' m_other Hne'),
    (torque_Spec p_self m_self p_other m_other Hne),
    (GetMFS_RotateVectorReverse p_self' p_other' m_other Hne'),
    (GetMFS_RotateVectorReverse p_self p_other m_other Hne).
  rewrite (force_scaled m_self m_other Hk Hne Hr).
  unfold Spec.torque.
  rewrite (B_world_scaled m_other Hk Hne Hr), cross_scale_r.
  rewrite !norm_scale by (apply inv_pow_nonneg; exact Hk).
  split; [reflexivity|]. split; [reflexivity|].
  destruct Hrot as [Hsame | [Hu Hu']].
  - rewrite Hsame, RotateVectorReverse_scale.
    apply norm_scale, inv_pow_nonneg; exact Hk.
  - rewrite !RotateVectorReverse_unit by assumption.
    rewrite !inverseRotate_norm by assumption.
    apply norm_scale, inv_pow_nonneg; exact Hk.
Qed.

Lemma falloff_with_distance_witness :
  Length (fst (GetForceTorque (pose_at 2 0 0) (mkVector3 0 1 0)
                 (pose_at 0 0 0) (mkVector3 0 0 1)))
  = / 2 ^ 4 * Length (fst (GetForceTorque (pose_at 1 0 0) (mkVector3 0 1 0)
                             (pose_at 0 0 0) (mkVector3 0 0 1))) /\
  Length (snd (GetForceTorque (pose_at 2 0 0) (mkVector3 0 1 0)
                 (pose_at 0 0 0) (mkVector3 0 0 1)))
  = / 2 ^ 3 * Length (snd (GetForceTorque (pose_at 1 0 0) (mkVector3 0 1 0)
                             (pose_at 0 0 0) (mkVector3 0 0 1))) /\
  Length (GetMFS (pose_at 2 0 0) (pose_at 0 0 0) (mkVector3 0 0 1))
  = / 2 ^ 3 * Length (GetMFS (pose_at 1 0 0) (pose_at 0 0 0)
                        (mkVector3 0 0 1)).
Proof.
  apply (@falloff_with_distance (pose_at 1 0 0) (pose_at 0 0 0)
           (pose_at 2 0 0) (pose_at 0 0 0)
           (mkVector3 0 1 0) (mkVector3 0 0 1) 2).
  - lra.
  - exact pose_at_distinct.
  - cbv [Spec.r Spec.scale Spec.minus Spec.vec pose_at Pos vX vY vZ].
    f_equal; ring.
  - left. reflexivity.
Defined.

End Falloff.

(** ** Load: the offsets of the two magnets *)

Section LoadOffsets.
Context {T : Type} `{Scalar T}.
Variable Quaternion_of_Euler : Vector3 T -> Quaternion T.

Lemma Load_mag (st : DipoleMagnetPair T) (links : list string)
    (sdf : sdf_Element T) (ros_initialized : bool) :
  mag (Load Quaternion_of_Euler st links sdf ros_initialized)
  = if Load_proceeds links sdf
    then Load_magnets Quaternion_of_Euler sdf (Magnet_default, Magnet_default)
    else (Magnet_default, Magnet_default).
Proof.
  unfold Load, Load_proceeds.
  destruct (HasElement sdf "parentBodyName"); cbn [negb andb]; [|reflexivity].
  destruct (HasElement sdf "childBodyName"); cbn [negb andb]; [|reflexivity].
  destruct (GetLink links (Get_string sdf "parentBodyName")); [|reflexivity].
  destruct (GetLink links (Get_string sdf "childBodyName")); [|reflexivity].
  destruct (HasElement sdf "shouldPublish"); [|reflexivity].
  destruct (Get_bool sdf "shouldPublish"); [|reflexivity].
  destruct ros_initialized; reflexivity.
Qed.

Lemma Load_magnets_second_Pos (sdf : sdf_Element T) (m : Magnet T * Magnet T) :
  Pos (offset (snd (Load_magnets Quaternion_of_Euler sdf m)))
  = Pos (offset (snd m)).
Proof.
  unfold Load_magnets.
  destruct (HasElement sdf "parent_dipole_moment"),
    (HasElement sdf "child_dipole_moment"),
    (HasElement sdf "parentxyzOffset"), (HasElement sdf "childxyzOffset"),
    (HasElement sdf "parentrpyOffset"), (HasElement sdf "childrpyOffset");
    reflexivity.
Qed.

Lemma Load_magnets_first_Pos (sdf : sdf_Element T) (m : Magnet T * Magnet T) :
  Pos (offset (fst (Load_magnets Quaternion_of_Euler sdf m)))
  = if HasElement sdf "parentxyzOffset" || HasElement sdf "childxyzOffset"
    then Get_Vector3d sdf "xyzOffset"
    else Pos (offset (fst m)).
Proof.
  unfold Load_magnets.
  destruct (HasElement sdf "parent_dipole_moment"),
    (HasElement sdf "child_dipole_moment"),
    (HasElement sdf "parentxyzOffset"), (HasElement sdf "childxyzOffset"),
    (HasElement sdf "parentrpyOffset"), (HasElement sdf "childrpyOffset");
    reflexivity.
Qed.

(** C10: after [Load] the offset position of the child magnet is the
    default, whatever the configuration; where [Load] reaches the magnet
    parameters, a [childxyzOffset] element, and likewise a
    [parentxyzOffset] element, sets the offset position of the parent
    magnet to the value of the element named [xyzOffset]. *)
Theorem Load_xyzOffset (st : DipoleMagnetPair T) (links : list string)
    (sdf : sdf_Element T) (ros_initialized : bool) :
  let st' := Load Quaternion_of_Euler st links sdf ros_initialized in
  Pos (offset (snd (mag st'))) = Pos (offset Magnet_default) /\
  (Load_proceeds links sdf = true ->
   HasElement sdf "childxyzOffset" = true ->
   Pos (offset (fst (mag st'))) = Get_Vector3d sdf "xyzOffset") /\
  (Load_proceeds links sdf = true ->
   HasElement sdf "parentxyzOffset" = true ->
   Pos (offset (fst (mag st'))) = Get_Vector3d sdf "xyzOffset").
Proof.
  cbv zeta. rewrite Load_mag.
  split; [|split].
  - destruct (Load_proceeds links sdf); [|reflexivity].
    apply Load_magnets_second_Pos.
  - intros Hp Hc. rewrite Hp, Load_magnets_first_Pos, Hc, orb_true_r.
    reflexivity.
  - intros Hp Hc. rewrite Hp, Load_magnets_first_Pos, Hc. reflexivity.
Qed.

End LoadOffsets.

Lemma Load_xyzOffset_witness :
  let st' := Load (fun _ => Quaternion_Identity)
               (DipoleMagnetPair_new false 0%R) ["base"; "tip"]%string
               sdf_two_offsets false in
  Pos (offset (snd (mag st'))) = mkVector3 0%R 0%R 0%R /\
  Pos (offset (fst (mag st'))) = mkVector3 0%R 0%R 0%R.
Proof.
  cbv zeta.
  destruct (Load_xyzOffset (fun _ => Quaternion_Identity)
              (DipoleMagnetPair_new false 0%R) ["base"; "tip"]%string
              sdf_two_offsets false) as (Hsnd & Hchild & Hparent).
  split.
  - exact Hsnd.
  - exact (Hchild eq_refl eq_refl).
Defined.

(** ** Publishing *)

Section Publisher.
Context {T : Type} `{Scalar T}.

(** [PublishData] publishes only with publishing enabled and a positive
    subscriber count. *)
Lemma PublishData_only_connected (st : DipoleMagnetPair T) (cur_time : Time)
    (force torque mfs : Vector3 T) :
  snd (PublishData st cur_time force torque mfs) <> [] ->
  should_publish st = true /\ (0 < connect_count st)%Z.
Proof.
  unfold PublishData.
  destruct (should_publish st); cbn [andb]; [|intros Hn; now elim Hn].
  destruct (0 <? connect_count st)%Z eqn:Hc; [|intros Hn; now elim Hn].
  intros _. split; [reflexivity|]. apply Z.ltb_lt; exact Hc.
Qed.

(** With a positive rate, [PublishData] publishes nothing while the time
    since [last_time] is below [1/update_rate]. *)
Lemma PublishData_skips (st : DipoleMagnetPair T) (cur_time : Time)
    (force torque mfs : Vector3 T) :
  (of_Z 0 <? update_rate st)%sc = true ->
  (Time_Double (Time_sub cur_time (last_time st))
     <? lit 1 0 / update_rate st)%sc = true ->
  snd (PublishData st cur_time force torque mfs) = [].
Proof.
  intros Hr Ht. unfold PublishData. rewrite Hr, Ht.
  destruct (should_publish st && (0 <? connect_count st)%Z); reflexivity.
Qed.

(** When [PublishData] publishes: publishing enabled, a subscriber
    connected, and the rate test against [last_time] passed. *)
Lemma PublishData_publishes_iff (st : DipoleMagnetPair T) (cur_time : Time)
    (force torque mfs : Vector3 T) :
  snd (PublishData st cur_time force torque mfs) <> [] <->
  should_publish st && (0 <? connect_count st)%Z &&
  negb ((of_Z 0 <? update_rate st)%sc &&
        (Time_Double (Time_sub cur_time (last_time st))
           <? lit 1 0 / update_rate st)%sc) = true.
Proof.
  unfold PublishData.
  destruct (should_publish st && (0 <? connect_count st)%Z); cbn [andb].
  - match goal with |- context [if ?c then _ else _] => destruct c end;
      cbn [snd negb]; split; try discriminate; try reflexivity;
      intros Hn; now elim Hn.
  - cbn [snd]. split; [intros Hn; now elim Hn | discriminate].
Qed.

(** No event writes [last_time]: it stays what it was when the plugin was
    constructed. *)
Lemma step_last_time (st : DipoleMagnetPair T) (e : Event T) :
  last_time (fst (step st e)) = last_time st.
Proof.
  destruct e as [| | cur_time force torque mfs]; cbn [step]; try reflexivity.
  unfold PublishData.
  destruct (should_publish st && (0 <? connect_count st)%Z); [|reflexivity].
  match goal with |- context [if ?c then _ else _] => destruct c end;
    reflexivity.
Qed.

Lemma run_last_time (evs : list (Event T)) (st : DipoleMagnetPair T) :
  last_time (fst (run st evs)) = last_time st.
Proof.
  revert st. induction evs as [| e rest IH]; intros st; [reflexivity|].
  cbn [run]. pose proof (step_last_time st e) as Hs.
  destruct (step st e) as [st1 out1]. specialize (IH st1).
  destruct (run st1 rest) as [st2 out2]. cbn [fst] in *.
  rewrite IH. exact Hs.
Qed.

End Publisher.

(** C9: the rate limit is not enforced.  At 1 Hz, with one subscriber,
    updates at simulation times 0.5 s, 2 s and 2.001 s: the first publishes
    nothing, the other two both publish (a wrench and a field message
    each), 1 ms apart.  [last_time] is still the time of construction, so
    the rate test holds back the updates of the first [1/update_rate]
    seconds of simulation time and lets every later one pass. *)
Theorem PublishData_rate_limit_not_enforced :
  should_publish publishing_plugin = true /\
  update_rate publishing_plugin = 1%float /\
  connect_count publishing_plugin = 1%Z /\
  map (@stamp_of float)
    (snd (@run float (DoubleScalar pow_mul) publishing_plugin
            [ EvPublish (mkTime 0 500000000) (mkVector3 0 0 0)
                (mkVector3 0 0 0) (mkVector3 0 0 0);
              EvPublish (mkTime 2 0) (mkVector3 0 0 0) (mkVector3 0 0 0)
                (mkVector3 0 0 0);
              EvPublish (mkTime 2 1000000) (mkVector3 0 0 0)
                (mkVector3 0 0 0) (mkVector3 0 0 0) ]%float))
  = [ mkTime 2 0; mkTime 2 0; mkTime 2 1000000; mkTime 2 1000000 ].
Proof.
  repeat split; vm_compute; reflexivity.
Qed.

(** ** Coincident dipoles in binary64 *)

(** Reads the [Scalar] operations at the binary64 instance. *)
Ltac double_ops :=
  cbv [sVmul Vsub Vadd Vneg Vmuls Vdivs Dot Cross Qmul
       s_add s_sub s_mul s_div s_neg s_sqrt s_powi s_abs s_ltb s_leb
       DoubleScalar vX vY vZ qw qx qy qz Pos Rot fst snd] in *.

Section Binary64.
Local Open Scope float_scope.

Lemma Prim2SF_inj (x y : float) : Prim2SF x = Prim2SF y -> x = y.
Proof.
  intros Heq. rewrite <- (SF2Prim_Prim2SF x), <- (SF2Prim_Prim2SF y), Heq.
  reflexivity.
Qed.

Lemma Prim2SF_nan : Prim2SF nan = S754_nan.
Proof. reflexivity. Qed.

Lemma mul_nan_r (x : float) : x * nan = nan.
Proof.
  apply Prim2SF_inj. rewrite mul_spec, Prim2SF_nan.
  destruct (Prim2SF x); reflexivity.
Qed.

Lemma mul_nan_l (x : float) : nan * x = nan.
Proof. apply Prim2SF_inj. rewrite mul_spec, Prim2SF_nan. reflexivity. Qed.

Lemma add_nan_r (x : float) : x + nan = nan.
Proof.
  apply Prim2SF_inj. rewrite add_spec, Prim2SF_nan.
  destruct (Prim2SF x); reflexivity.
Qed.

Lemma add_nan_l (x : float) : nan + x = nan.
Proof. apply Prim2SF_inj. rewrite add_spec, Prim2SF_nan. reflexivity. Qed.

Lemma sub_nan_r (x : float) : x - nan = nan.
Proof.
  apply Prim2SF_inj. rewrite sub_spec, Prim2SF_nan.
  destruct (Prim2SF x); reflexivity.
Qed.

Lemma sub_nan_l (x : float) : nan - x = nan.
Proof. apply Prim2SF_inj. rewrite sub_spec, Prim2SF_nan. reflexivity. Qed.

(** NaN absorbs every arithmetic operation. *)
Ltac nan_prop :=
  repeat (rewrite ?mul_nan_r, ?mul_nan_l, ?add_nan_r, ?add_nan_l,
            ?sub_nan_r, ?sub_nan_l).

(** [x - x] is +0 for a finite [x] and NaN for an infinite or NaN [x]. *)
Lemma sub_diag (x : float) : x - x = 0 \/ x - x = nan.
Proof.
  pose proof (sub_spec x x) as Hs.
  destruct (Prim2SF x) as [s | s | | s m e] eqn:Hx.
  - left. apply Prim2SF_inj. rewrite Hs. destruct s; reflexivity.
  - right. apply Prim2SF_inj. rewrite Hs. destruct s; reflexivity.
  - right. apply Prim2SF_inj. rewrite Hs. reflexivity.
  - left. apply Prim2SF_inj. rewrite Hs.
    unfold SF64sub, SFsub. rewrite Z.sub_diag. reflexivity.
Qed.

(** What the C standard fixes of [pow] at the arguments met here:
    [pow(+0, 2) = +0] and [pow(NaN, 2) = NaN]. *)
Variable libm_pow : float -> float -> float.
Hypothesis pow_zero : libm_pow 0 2 = 0.
Hypothesis pow_nan : libm_pow nan 2 = nan.

(** The unit separation vector of two equal positions: 0/0, or NaN/NaN
    where a coordinate is infinite or NaN. *)
Lemma p_unit_nan (a b : Vector3 float) :
  a = b ->
  @Vdivs float (DoubleScalar libm_pow)
    (@Vsub float (DoubleScalar libm_pow) a b)
    (@Length float (DoubleScalar libm_pow)
       (@Vsub float (DoubleScalar libm_pow) a b))
  = nan3.
Proof.
  intros ->. destruct b as [x y z].
  unfold Length, SquaredLength. double_ops.
  change (float_of_Z 2) with 2.
  destruct (sub_diag x) as [-> | ->], (sub_diag y) as [-> | ->],
    (sub_diag z) as [-> | ->];
    rewrite ?pow_zero, ?pow_nan; reflexivity.
Qed.

Lemma RotateVectorReverse_nan (q : Quaternion float) :
  @RotateVectorReverse float (DoubleScalar libm_pow) q nan3 = nan3.
Proof.
  unfold RotateVectorReverse.
  destruct (@Inverse float (DoubleScalar libm_pow) q) as [iw ix iy iz].
  unfold nan3. double_ops. nan_prop. reflexivity.
Qed.

(** C2, as the code has it: with equal positions [GetForceTorque] and
    [GetMFS] signal no error; they return, and every component of the
    force, of the torque and of the field is NaN. *)
Theorem coincident_positions_return_nan (p_self : Pose3 float)
    (m_self : Vector3 float) (p_other : Pose3 float)
    (m_other : Vector3 float) :
  Pos p_self = Pos p_other ->
  @GetForceTorque float (DoubleScalar libm_pow) p_self m_self p_other m_other
  = (nan3, nan3) /\
  @GetMFS float (DoubleScalar libm_pow) p_self p_other m_other = nan3.
Proof.
  intros Heq. unfold GetForceTorque, GetMFS.
  rewrite (p_unit_nan Heq).
  set (d := @Length float (DoubleScalar libm_pow) _).
  split.
  - unfold nan3. double_ops. nan_prop. reflexivity.
  - match goal with
    | |- context [RotateVectorReverse _ ?B] => replace B with nan3
    end.
    + rewrite RotateVectorReverse_nan. reflexivity.
    + unfold nan3. double_ops. nan_prop. reflexivity.
Qed.

End Binary64.

Lemma coincident_positions_return_nan_witness :
  @GetForceTorque float (DoubleScalar pow_mul)
    (mkPose3 (mkVector3 1 2 3) (mkQuaternion 1 0 0 0))%float
    (mkVector3 1 0 0)%float
    (mkPose3 (mkVector3 1 2 3) (mkQuaternion 0 1 0 0))%float
    (mkVector3 0 1 0)%float
  = (nan3, nan3) /\
  @GetMFS float (DoubleScalar pow_mul)
    (mkPose3 (mkVector3 1 2 3) (mkQuaternion 1 0 0 0))%float
    (mkPose3 (mkVector3 1 2 3) (mkQuaternion 0 1 0 0))%float
    (mkVector3 0 1 0)%float
  = nan3.
Proof.
  apply (@coincident_positions_return_nan pow_mul); reflexivity.
Defined.

(** C2, as the claim states it, fails: both dipoles at the origin, the
    calls return and the results are NaN. *)
Lemma coincident_origin_is_nan :
  @GetForceTorque float (DoubleScalar pow_mul)
    (mkPose3 (mkVector3 0 0 0) (mkQuaternion 1 0 0 0))%float
    (mkVector3 1 0 0)%float
    (mkPose3 (mkVector3 0 0 0) (mkQuaternion 1 0 0 0))%float
    (mkVector3 1 0 0)%float
  = (mkVector3 nan nan nan, mkVector3 nan nan nan) /\
  @GetMFS float (DoubleScalar pow_mul)
    (mkPose3 (mkVector3 0 0 0) (mkQuaternion 1 0 0 0))%float
    (mkPose3 (mkVector3 0 0 0) (mkQuaternion 1 0 0 0))%float
    (mkVector3 1 0 0)%float
  = mkVector3 nan nan nan.
Proof. split; vm_compute; reflexivity. Qed.

(** * Further properties *)

(** ** Force, torque and field *)

Section MoreForceTorque.
Local Open Scope R_scope.

Lemma Vsub_translate (t : Vector3 R) (a b : Pose3 R) :
  Vsub (Pos (translate t a)) (Pos (translate t b)) = Vsub (Pos a) (Pos b).
Proof.
  destruct a as [[ax ay az] ra], b as [[bx by_ bz] rb], t as [tx ty tz].
  unfold translate. vec_ops. real_ops. f_equal; ring.
Qed.

(** X1: moving both dipoles by the same vector changes neither the force,
    nor the torque, nor the field. *)
Theorem translation_invariance (t : Vector3 R) (p_self p_other : Pose3 R)
    (m_self m_other : Vector3 R) :
  Pos p_self <> Pos p_other ->
  GetForceTorque (translate t p_self) m_self (translate t p_other) m_other
  = GetForceTorque p_self m_self p_other m_other /\
  GetMFS (translate t p_self) (translate t p_other) m_other
  = GetMFS p_self p_other m_other.
Proof.
  intros _. unfold GetForceTorque, GetMFS. rewrite !Vsub_translate.
  split; reflexivity.
Qed.

Lemma translation_invariance_witness :
  GetForceTorque (translate (mkVector3 5 6 7) (pose_at 1 0 0))
    (mkVector3 0 1 0) (translate (mkVector3 5 6 7) (pose_at 0 0 0))
    (mkVector3 0 0 1)
  = GetForceTorque (pose_at 1 0 0) (mkVector3 0 1 0) (pose_at 0 0 0)
      (mkVector3 0 0 1).
Proof.
  apply (@translation_invariance (mkVector3 5 6 7) (pose_at 1 0 0)
           (pose_at 0 0 0) (mkVector3 0 1 0) (mkVector3 0 0 1)
           pose_at_distinct).
Defined.

(** X2: force and torque are linear in the moment of the self dipole. *)
Theorem linear_in_m_self (p_self p_other : Pose3 R) (a b m_other : Vector3 R)
    (c : R) :
  Pos p_self <> Pos p_other ->
  let FT m := GetForceTorque p_self m p_other m_other in
  fst (FT (Vadd (Vmuls a c) b)) = Vadd (Vmuls (fst (FT a)) c) (fst (FT b)) /\
  snd (FT (Vadd (Vmuls a c) b)) = Vadd (Vmuls (snd (FT a)) c) (snd (FT b)).
Proof.
  intros _. cbv zeta. unfold GetForceTorque. cbn [fst snd].
  set (d := Length _). set (u := Vdivs _ d).
  destruct u as [ux uy uz], a as [ax ay az], b as [bx by_ bz],
    m_other as [ox oy oz].
  vec_ops. real_ops. split; f_equal; ring.
Qed.

Lemma linear_in_m_self_witness :
  let FT m := GetForceTorque (pose_at 1 0 0) m (pose_at 0 0 0)
                (mkVector3 0 0 1) in
  fst (FT (Vadd (Vmuls (mkVector3 1 0 0) 3) (mkVector3 0 1 0)))
  = Vadd (Vmuls (fst (FT (mkVector3 1 0 0))) 3) (fst (FT (mkVector3 0 1 0))).
Proof.
  apply (@linear_in_m_self (pose_at 1 0 0) (pose_at 0 0 0)
           (mkVector3 1 0 0) (mkVector3 0 1 0) (mkVector3 0 0 1) 3
           pose_at_distinct).
Defined.

(** X3: force, torque and field are linear in the moment of the other
    dipole. *)
Theorem linear_in_m_other (p_self p_other : Pose3 R) (m_self a b : Vector3 R)
    (c : R) :
  Pos p_self <> Pos p_other ->
  let FT m := GetForceTorque p_self m_self p_other m in
  let B m := GetMFS p_self p_other m in
  fst (FT (Vadd (Vmuls a c) b)) = Vadd (Vmuls (fst (FT a)) c) (fst (FT b)) /\
  snd (FT (Vadd (Vmuls a c) b)) = Vadd (Vmuls (snd (FT a)) c) (snd (FT b)) /\
  B (Vadd (Vmuls a c) b) = Vadd (Vmuls (B a) c) (B b).
Proof.
  intros _. cbv zeta.
  unfold GetForceTorque, GetMFS, RotateVectorReverse. cbn [fst snd].
  set (d := Length _). set (u := Vdivs _ d).
  destruct (Inverse (Rot p_self)) as [iw ix iy iz].
  destruct (Rot p_self) as [w x y z].
  destruct u as [ux uy uz], a as [ax ay az], b as [bx by_ bz],
    m_self as [sx sy sz].
  cbv [Qmul qw qx qy qz]. vec_ops. real_ops.
  repeat apply conj; f_equal; ring.
Qed.

Lemma linear_in_m_other_witness :
  let B m := GetMFS (pose_at 1 0 0) (pose_at 0 0 0) m in
  B (Vadd (Vmuls (mkVector3 1 0 0) 3) (mkVector3 0 1 0))
  = Vadd (Vmuls (B (mkVector3 1 0 0)) 3) (B (mkVector3 0 1 0)).
Proof.
  apply (@linear_in_m_other (pose_at 1 0 0) (pose_at 0 0 0)
           (mkVector3 0 0 1) (mkVector3 1 0 0) (mkVector3 0 1 0) 3
           pose_at_distinct).
Defined.

(** X4: the torque is perpendicular to the moment of the self dipole. *)
Theorem torque_perpendicular (p_self p_other : Pose3 R)
    (m_self m_other : Vector3 R) :
  Pos p_self <> Pos p_other ->
  Dot m_self (snd (GetForceTorque p_self m_self p_other m_other)) = 0.
Proof.
  intros _. unfold GetForceTorque. cbn [snd].
  set (d := Length _). set (u := Vdivs _ d).
  destruct u as [ux uy uz], m_self as [sx sy sz], m_other as [ox oy oz].
  vec_ops. real_ops. ring.
Qed.

Lemma torque_perpendicular_witness :
  Dot (mkVector3 0 1 0)
    (snd (GetForceTorque (pose_at 1 0 0) (mkVector3 0 1 0) (pose_at 0 0 0)
            (mkVector3 0 0 1)))
  = 0.
Proof.
  apply (@torque_perpendicular (pose_at 1 0 0) (pose_at 0 0 0)
           (mkVector3 0 1 0) (mkVector3 0 0 1) pose_at_distinct).
Defined.

(** X5: the torques on the two dipoles and the moment of the force balance:
    torque on self + torque on other + r x force = 0, with the torque on
    the other dipole computed by the call with the dipoles exchanged. *)
Theorem angular_momentum_balance (p_self p_other : Pose3 R)
    (m_self m_other : Vector3 R) :
  Pos p_self <> Pos p_other ->
  Vadd (Vadd (snd (GetForceTorque p_self m_self p_other m_other))
             (snd (GetForceTorque p_other m_other p_self m_self)))
       (Cross (Vsub (Pos p_self) (Pos p_other))
              (fst (GetForceTorque p_self m_self p_other m_other)))
  = mkVector3 0 0 0.
Proof.
  intros Hne. pose proof (d_pos p_self p_other Hne) as Hd.
  unfold GetForceTorque; cbn [fst snd].
  rewrite !Length_sub_d, (d_swap p_self p_other).
  set (d := Spec.d p_self p_other) in *.
  destruct p_self as [[ax ay az] ra], p_other as [[bx by_ bz] rb],
    m_self as [sx sy sz], m_other as [ox oy oz].
  vec_ops. real_ops.
  f_equal; field; lra.
Qed.

Lemma angular_momentum_balance_witness :
  Vadd (Vadd (snd (GetForceTorque (pose_at 1 0 0) (mkVector3 0 1 0)
                     (pose_at 0 0 0) (mkVector3 0 0 1)))
             (snd (GetForceTorque (pose_at 0 0 0) (mkVector3 0 0 1)
                     (pose_at 1 0 0) (mkVector3 0 1 0))))
       (Cross (Vsub (Pos (pose_at 1 0 0)) (Pos (pose_at 0 0 0)))
              (fst (GetForceTorque (pose_at 1 0 0) (mkVector3 0 1 0)
                      (pose_at 0 0 0) (mkVector3 0 0 1))))
  = mkVector3 0 0 0.
Proof.
  apply (@angular_momentum_balance (pose_at 1 0 0) (pose_at 0 0 0)
           (mkVector3 0 1 0) (mkVector3 0 0 1) pose_at_distinct).
Defined.

Lemma rHat_unit_components (x y z d : R) :
  0 < d -> d * d = x * x + y * y + z * z ->
  x / d * (x / d) + y / d * (y / d) + z / d * (z / d) = 1.
Proof. intros Hd Hd2. field_simplify_eq; [|lra]. nra. Qed.

(** X6: two moments along the line joining the dipoles, a rHat and b rHat:
    the force is -(6e-7 a b / d^4) rHat, towards the other dipole when a
    and b have the same sign, and the torque is zero. *)
Theorem collinear_moments (p_self p_other : Pose3 R) (a b : R) :
  Pos p_self <> Pos p_other ->
  let u := Spec.rHat p_self p_other in
  let d := Spec.d p_self p_other in
  GetForceTorque p_self (Spec.scale a u) p_other (Spec.scale b u)
  = (Spec.scale (- 6e-7 * a * b / d ^ 4) u, mkVector3 0 0 0).
Proof.
  intros Hne. pose proof (d_pos p_self p_other Hne) as Hd. cbv zeta.
  assert (Hd2 : Spec.d p_self p_other * Spec.d p_self p_other
                = Spec.dot (Spec.r p_self p_other) (Spec.r p_self p_other)).
  { unfold Spec.d, Spec.norm. apply sqrt_sqrt. unfold Spec.dot. nra. }
  unfold GetForceTorque. rewrite !Length_sub_d. unfold Spec.rHat.
  change (Vsub (Pos p_self) (Pos p_other)) with (Spec.r p_self p_other).
  set (d := Spec.d p_self p_other) in *.
  destruct (Spec.r p_self p_other) as [x y z].
  vec_ops. real_ops.
  pose proof (@rHat_unit_components x y z d Hd Hd2) as Hs.
  replace (/ d * x) with (x / d) by (unfold Rdiv; ring).
  replace (/ d * y) with (y / d) by (unfold Rdiv; ring).
  replace (/ d * z) with (z / d) by (unfold Rdiv; ring).
  set (ux := x / d) in *. set (uy := y / d) in *. set (uz := z / d) in *.
  set (K := 3 * 1e-7 / d ^ 4).
  replace (- 6e-7 * a * b / d ^ 4) with (- 2 * a * b * K)
    by (unfold K; field; lra).
  set (s := ux * ux + uy * uy + uz * uz) in *.
  f_equal; f_equal; try ring.
  - transitivity (K * a * b * ux * (3 * s - 5 * s * s));
      [unfold s; ring | rewrite Hs; ring].
  - transitivity (K * a * b * uy * (3 * s - 5 * s * s));
      [unfold s; ring | rewrite Hs; ring].
  - transitivity (K * a * b * uz * (3 * s - 5 * s * s));
      [unfold s; ring | rewrite Hs; ring].
Qed.

Lemma collinear_moments_witness :
  let u := Spec.rHat (pose_at 1 0 0) (pose_at 0 0 0) in
  let d := Spec.d (pose_at 1 0 0) (pose_at 0 0 0) in
  GetForceTorque (pose_at 1 0 0) (Spec.scale 2 u) (pose_at 0 0 0)
    (Spec.scale 3 u)
  = (Spec.scale (- 6e-7 * 2 * 3 / d ^ 4) u, mkVector3 0 0 0).
Proof.
  apply (@collinear_moments (pose_at 1 0 0) (pose_at 0 0 0) 2 3
           pose_at_distinct).
Defined.

End MoreForceTorque.

(** ** The field sensor and the torque *)

Section MoreField.
Local Open Scope R_scope.

Ltac quat_ops :=
  cbv [Spec.rotate Spec.inverseRotate Spec.vpart Spec.compose Spec.conj
       Spec.pure Spec.qnorm2 Spec.vec Qmul qw qx qy qz vX vY vZ] in *.

Lemma Inverse_identity : Inverse (mkQuaternion 1 0 0 0) = mkQuaternion 1 0 0 0.
Proof.
  rewrite (Inverse_unit unit_identity). unfold Spec.conj; cbn. f_equal; ring.
Qed.

Lemma RotateVectorReverse_identity (v : Vector3 R) :
  RotateVectorReverse (mkQuaternion 1 0 0 0) v = v.
Proof.
  unfold RotateVectorReverse. rewrite Inverse_identity. destruct v as [x y z].
  cbv [Qmul qw qx qy qz vX vY vZ]. real_ops. f_equal; ring.
Qed.

(** The rotation undoes the reverse rotation. *)
Lemma rotate_inverseRotate (q : Quaternion R) (v : Vector3 R) :
  Spec.unit q -> Spec.rotate q (Spec.inverseRotate q v) = v.
Proof.
  unfold Spec.unit. intros Hu.
  destruct q as [w x y z], v as [a b c].
  quat_ops. vec_ops. cbn in *.
  assert (Hs : forall t,
    (w*w + x*x + y*y + z*z) * (w*w + x*x + y*y + z*z) * t = t)
    by (intros; rewrite Hu; ring).
  f_equal.
  - transitivity ((w*w + x*x + y*y + z*z) * (w*w + x*x + y*y + z*z) * a);
      [ring | apply Hs].
  - transitivity ((w*w + x*x + y*y + z*z) * (w*w + x*x + y*y + z*z) * b);
      [ring | apply Hs].
  - transitivity ((w*w + x*x + y*y + z*z) * (w*w + x*x + y*y + z*z) * c);
      [ring | apply Hs].
Qed.

(** X7: with the identity orientation of the self pose, [GetMFS] returns
    the world-frame field unchanged. *)
Theorem GetMFS_identity_orientation (p_self p_other : Pose3 R)
    (m_other : Vector3 R) :
  Pos p_self <> Pos p_other -> Rot p_self = Quaternion_Identity ->
  GetMFS p_self p_other m_other = Spec.B_world p_self p_other m_other.
Proof.
  intros Hne Hq. rewrite (GetMFS_RotateVectorReverse _ _ _ Hne), Hq.
  apply RotateVectorReverse_identity.
Qed.

Lemma GetMFS_identity_orientation_witness :
  GetMFS (pose_at 1 0 0) (pose_at 0 0 0) (mkVector3 0 1 0)
  = Spec.B_world (pose_at 1 0 0) (pose_at 0 0 0) (mkVector3 0 1 0).
Proof.
  apply (@GetMFS_identity_orientation (pose_at 1 0 0) (pose_at 0 0 0)
           (mkVector3 0 1 0) pose_at_distinct eq_refl).
Defined.

(** X8: the torque of [GetForceTorque] is the moment of the self dipole
    crossed with the reading of [GetMFS] rotated back into the world
    frame: the two functions use the same field. *)
Theorem torque_from_field (p_self p_other : Pose3 R)
    (m_self m_other : Vector3 R) :
  Pos p_self <> Pos p_other -> Spec.unit (Rot p_self) ->
  snd (GetForceTorque p_self m_self p_other m_other)
  = Cross m_self (RotateVector (Rot p_self) (GetMFS p_self p_other m_other)).
Proof.
  intros Hne Hu.
  rewrite (torque_Spec _ m_self _ m_other Hne),
    (GetMFS_RotateVectorReverse _ _ _ Hne).
  rewrite (RotateVectorReverse_unit _ Hu), (RotateVector_unit _ Hu),
    (rotate_inverseRotate _ Hu).
  reflexivity.
Qed.

Lemma torque_from_field_witness :
  snd (GetForceTorque (pose_at 1 0 0) (mkVector3 0 1 0) (pose_at 0 0 0)
         (mkVector3 0 0 1))
  = Cross (mkVector3 0 1 0)
      (RotateVector (Rot (pose_at 1 0 0))
         (GetMFS (pose_at 1 0 0) (pose_at 0 0 0) (mkVector3 0 0 1))).
Proof.
  apply (@torque_from_field (pose_at 1 0 0) (pose_at 0 0 0)
           (mkVector3 0 1 0) (mkVector3 0 0 1) pose_at_distinct
           unit_identity).
Defined.

(** X9: for a unit orientation of the self pose the magnitude of the
    reading of [GetMFS] is the magnitude of the world-frame field: it does
    not depend on the orientation. *)
Theorem field_magnitude (p_self p_other : Pose3 R) (m_other : Vector3 R) :
  Pos p_self <> Pos p_other -> Spec.unit (Rot p_self) ->
  Length (GetMFS p_self p_other m_other)
  = Spec.norm (Spec.B_world p_self p_other m_other).
Proof.
  intros Hne Hu.
  rewrite Length_R, (GetMFS_RotateVectorReverse _ _ _ Hne),
    (RotateVectorReverse_unit _ Hu).
  apply inverseRotate_norm. exact Hu.
Qed.

Lemma field_magnitude_witness :
  Length (GetMFS (pose_at 1 0 0) (pose_at 0 0 0) (mkVector3 0 1 0))
  = Spec.norm (Spec.B_world (pose_at 1 0 0) (pose_at 0 0 0)
                 (mkVector3 0 1 0)).
Proof.
  apply (@field_magnitude (pose_at 1 0 0) (pose_at 0 0 0) (mkVector3 0 1 0)
           pose_at_distinct unit_identity).
Defined.

End MoreField.

(** ** OnUpdate *)

Section MoreOnUpdate.
Local Open Scope R_scope.

Lemma Vadd_zero_l (v : Vector3 R) : Vadd (mkVector3 0 0 0) v = v.
Proof. destruct v as [x y z]. vec_ops. real_ops. f_equal; ring. Qed.

Lemma RotateVector_zero (q : Quaternion R) :
  RotateVector q (mkVector3 0 0 0) = mkVector3 0 0 0.
Proof.
  unfold RotateVector. destruct (Inverse q) as [iw ix iy iz], q as [w x y z].
  cbv [Qmul qw qx qy qz vX vY vZ]. real_ops. f_equal; ring.
Qed.

Lemma zero_moment_other (p_self p_other : Pose3 R) (m_self : Vector3 R) :
  GetForceTorque p_self m_self p_other (mkVector3 0 0 0)
  = (mkVector3 0 0 0, mkVector3 0 0 0).
Proof.
  unfold GetForceTorque. set (d := Length _). set (u := Vdivs _ d).
  destruct u as [ux uy uz], m_self as [sx sy sz].
  vec_ops. real_ops. f_equal; f_equal; ring.
Qed.

Lemma zero_moment_self (p_self p_other : Pose3 R) (m_other : Vector3 R) :
  GetForceTorque p_self (mkVector3 0 0 0) p_other m_other
  = (mkVector3 0 0 0, mkVector3 0 0 0).
Proof.
  unfold GetForceTorque. set (d := Length _). set (u := Vdivs _ d).
  destruct u as [ux uy uz], m_other as [sx sy sz].
  vec_ops. real_ops. f_equal; f_equal; ring.
Qed.

(** Two links at (1,0,0) and at the origin, each with a magnet at its
    centre of gravity: the dipoles are at distinct positions. *)
Lemma default_poses_distinct :
  Pos (dipole_pose (pose_at 1 0 0) Magnet_default)
  <> Pos (dipole_pose (pose_at 0 0 0) Magnet_default).
Proof.
  unfold dipole_pose, Magnet_default, Pose3_Zero, Vector3_Zero.
  cbn [offset Pos Rot of_Z RealScalar].
  rewrite !RotateVector_zero. unfold pose_at. vec_ops. real_ops.
  intros Heq. injection Heq as Hx. lra.
Qed.

(** X10: at distinct dipole positions the wrench [OnUpdate] applies to the
    child link is the opposite of the wrench it applies to the parent
    link: the forces, and the torques, handed to the physics engine sum to
    zero. *)
Theorem OnUpdate_opposite (st : DipoleMagnetPair R)
    (cog_first cog_second : Pose3 R) (cur_time : Time) :
  Pos (dipole_pose cog_first (fst (mag st)))
  <> Pos (dipole_pose cog_second (snd (mag st))) ->
  let a := snd (fst (OnUpdate st cog_first cog_second cur_time)) in
  second_force a = Vneg (first_force a) /\
  second_torque a = Vneg (first_torque a) /\
  Vadd (first_force a) (second_force a) = mkVector3 0 0 0 /\
  Vadd (first_torque a) (second_torque a) = mkVector3 0 0 0.
Proof.
  intros _. cbv zeta. rewrite OnUpdate_applied.
  cbn [first_force second_force first_torque second_torque].
  destruct (GetForceTorque _ _ _ _) as [[fx fy fz] [tx ty tz]]. cbn [fst snd].
  vec_ops. real_ops. repeat apply conj; f_equal; ring.
Qed.

Lemma OnUpdate_opposite_witness :
  let a := snd (fst (OnUpdate new_plugin_R (pose_at 1 0 0) (pose_at 0 0 0)
                       (mkTime 1 0))) in
  Vadd (first_force a) (second_force a) = mkVector3 0 0 0.
Proof.
  apply (@OnUpdate_opposite new_plugin_R (pose_at 1 0 0) (pose_at 0 0 0)
           (mkTime 1 0) default_poses_distinct).
Defined.

(** X11: when [OnUpdate] publishes, the wrench message carries the force
    and torque applied to the parent link, in frame "world", and the field
    message carries the reading of [GetMFS] at the two dipole poses, in
    the frame of the parent link; both are stamped with the simulation
    time. *)
Theorem OnUpdate_published (st : DipoleMagnetPair R)
    (cog_first cog_second : Pose3 R) (cur_time : Time) :
  let p_self := dipole_pose cog_first (fst (mag st)) in
  let p_other := dipole_pose cog_second (snd (mag st)) in
  let a := snd (fst (OnUpdate st cog_first cog_second cur_time)) in
  let out := snd (OnUpdate st cog_first cog_second cur_time) in
  out = [] \/
  out = [ PubWrench (mkWrenchStamped "world" cur_time
                       (first_force a) (first_torque a));
          PubMfs (mkMagneticField (fst (link_name st)) cur_time
                    (GetMFS p_self p_other
                       (RotateVector (Rot p_other)
                          (moment (snd (mag st)))))) ].
Proof.
  cbv zeta. unfold OnUpdate.
  destruct (GetForceTorque _ _ _ _) as [force_tmp torque_tmp].
  change (mkVector3 (of_Z 0) (of_Z 0) (of_Z 0)) with (mkVector3 0 0 0).
  rewrite !Vadd_zero_l.
  unfold PublishData.
  destruct (should_publish st && (0 <? connect_count st)%Z);
    [|left; reflexivity].
  match goal with |- context [if ?c then _ else _] => destruct c end;
    [left | right]; reflexivity.
Qed.

(** X12: a magnet with the default offset sits at the centre of gravity of
    its link: its pose is the pose of the link. *)
Theorem dipole_pose_default (cog : Pose3 R) :
  dipole_pose cog Magnet_default = cog.
Proof.
  unfold dipole_pose, Magnet_default, Pose3_Zero, Vector3_Zero,
    Quaternion_Identity.
  cbn [offset Pos Rot of_Z RealScalar].
  rewrite RotateVector_zero, Inverse_identity.
  destruct cog as [[x y z] [w qx_ qy_ qz_]].
  cbv [Qmul qw qx qy qz]. vec_ops. real_ops. f_equal; f_equal; ring.
Qed.

(** X13: a plugin loaded from a configuration that lacks one of the two
    dipole moments applies no force and no torque, to either link, at any
    update with the dipoles at distinct positions. *)
Theorem no_moment_no_wrench (Quaternion_of_Euler : Vector3 R -> Quaternion R)
    (st : DipoleMagnetPair R) (links : list string) (sdf : sdf_Element R)
    (ros_initialized : bool) (cog_first cog_second : Pose3 R)
    (cur_time : Time) :
  let st' := Load Quaternion_of_Euler st links sdf ros_initialized in
  HasElement sdf "parent_dipole_moment" = false \/
  HasElement sdf "child_dipole_moment" = false ->
  Pos (dipole_pose cog_first (fst (mag st')))
  <> Pos (dipole_pose cog_second (snd (mag st'))) ->
  snd (fst (OnUpdate st' cog_first cog_second cur_time)) = Applied_zero.
Proof.
  cbv zeta. intros Hm _. rewrite OnUpdate_applied. cbv zeta.
  set (st' := Load Quaternion_of_Euler st links sdf ros_initialized).
  assert (Hz : moment (fst (mag st')) = mkVector3 0 0 0 \/
               moment (snd (mag st')) = mkVector3 0 0 0).
  { unfold st'. rewrite Load_mag.
    destruct (Load_proceeds links sdf); [|left; reflexivity].
    unfold Load_magnets.
    destruct Hm as [Hm | Hm]; rewrite Hm; [left | right];
    destruct (HasElement sdf "parent_dipole_moment"),
      (HasElement sdf "child_dipole_moment"),
      (HasElement sdf "parentxyzOffset"), (HasElement sdf "childxyzOffset"),
      (HasElement sdf "parentrpyOffset"), (HasElement sdf "childrpyOffset");
      reflexivity. }
  destruct Hz as [Hz | Hz]; rewrite Hz, RotateVector_zero;
    [rewrite zero_moment_self | rewrite zero_moment_other];
    unfold Applied_zero; cbn [fst snd]; vec_ops; real_ops;
    f_equal; f_equal; ring.
Qed.

Lemma no_moment_no_wrench_witness :
  snd (fst (OnUpdate (Load Euler_stub new_plugin_R ["base"; "tip"]%string
                        sdf_two_offsets false)
              (pose_at 1 0 0) (pose_at 0 0 0) (mkTime 1 0)))
  = Applied_zero.
Proof.
  apply (@no_moment_no_wrench Euler_stub new_plugin_R ["base"; "tip"]%string
           sdf_two_offsets false (pose_at 1 0 0) (pose_at 0 0 0)
           (mkTime 1 0)).
  - left. reflexivity.
  - exact default_poses_distinct.
Defined.

End MoreOnUpdate.

(** ** Sequences of events *)

Section MorePublishing.
Context {T : Type} `{Scalar T}.

Lemma PublishData_configuration (st : DipoleMagnetPair T) (cur_time : Time)
    (force torque mfs : Vector3 T) :
  configuration (fst (PublishData st cur_time force torque mfs))
  = configuration st /\
  connect_count (fst (PublishData st cur_time force torque mfs))
  = connect_count st.
Proof.
  unfold PublishData.
  destruct (should_publish st && (0 <? connect_count st)%Z);
    [|split; reflexivity].
  match goal with |- context [if ?c then _ else _] => destruct c end;
    split; reflexivity.
Qed.

Lemma step_configuration (st : DipoleMagnetPair T) (e : Event T) :
  configuration (fst (step st e)) = configuration st.
Proof.
  destruct e; cbn [step]; try reflexivity. apply PublishData_configuration.
Qed.

Lemma wrap_int_in_range (z : Z) : in_int_range z = true -> wrap_int z = z.
Proof.
  unfold in_int_range, wrap_int, INT_MIN, INT_MAX. intros Hr.
  apply andb_true_iff in Hr. destruct Hr as [Hlo Hhi].
  apply Z.leb_le in Hlo. apply Z.leb_le in Hhi.
  rewrite Z.mod_small; lia.
Qed.

Lemma counts_in_range_head (c : Z) (evs : list (Event T)) :
  counts_in_range c evs = true -> in_int_range c = true.
Proof.
  destruct evs as [| e rest]; cbn [counts_in_range]; intros Hr;
    [exact Hr|].
  apply andb_true_iff in Hr. exact (proj1 Hr).
Qed.

(** One event without overflow moves the count by its delta. *)
Lemma step_connect_count (st : DipoleMagnetPair T) (e : Event T) :
  in_int_range (connect_count st + connect_delta [e]) = true ->
  connect_count (fst (step st e)) = (connect_count st + connect_delta [e])%Z.
Proof.
  destruct e; cbn [step connect_delta]; intros Hr.
  - cbn [Connect set_connect_count connect_count fst].
    rewrite wrap_int_in_range; [lia|].
    replace (connect_count st + 1)%Z with (connect_count st + (1 + 0))%Z
      by lia. exact Hr.
  - cbn [Disconnect set_connect_count connect_count fst].
    rewrite wrap_int_in_range; [lia|].
    replace (connect_count st - 1)%Z with (connect_count st + (-1 + 0))%Z
      by lia. exact Hr.
  - rewrite (proj2 (PublishData_configuration st _ _ _ _)). lia.
Qed.

(** X14: no sequence of connections, disconnections and publications
    changes anything of the plugin but the subscriber count and the two
    message buffers: the magnets, the names, [should_publish],
    [update_rate] and [last_time] stay as [Load] left them. *)
Theorem run_configuration (evs : list (Event T)) (st : DipoleMagnetPair T) :
  configuration (fst (run st evs)) = configuration st.
Proof.
  revert st. induction evs as [| e rest IH]; intros st; [reflexivity|].
  cbn [run]. pose proof (step_configuration st e) as Hs.
  destruct (step st e) as [st1 out1]. specialize (IH st1).
  destruct (run st1 rest) as [st2 out2]. cbn [fst] in *.
  rewrite IH. exact Hs.
Qed.

(** X15: as long as no increment or decrement overflows the [int], the
    subscriber count after a sequence of events is the count before plus
    the connections minus the disconnections; nothing keeps it from going
    negative. *)
Theorem run_connect_count (evs : list (Event T)) (st : DipoleMagnetPair T) :
  counts_in_range (connect_count st) evs = true ->
  connect_count (fst (run st evs)) = (connect_count st + connect_delta evs)%Z.
Proof.
  revert st. induction evs as [| e rest IH]; intros st Hr; [cbn; lia|].
  cbn [counts_in_range] in Hr. apply andb_true_iff in Hr.
  destruct Hr as [_ Hrest].
  pose proof (step_connect_count st e (counts_in_range_head _ _ Hrest)) as Hs.
  cbn [run]. destruct (step st e) as [st1 out1]. cbn [fst] in Hs.
  specialize (IH st1). rewrite Hs in IH. specialize (IH Hrest).
  destruct (run st1 rest) as [st2 out2]. cbn [fst] in *.
  rewrite IH. destruct e; cbn [connect_delta]; lia.
Qed.

(** X16: with [should_publish] false nothing is ever published, however
    many subscribers connect. *)
Theorem run_disabled (evs : list (Event T)) (st : DipoleMagnetPair T) :
  should_publish st = false -> snd (run st evs) = [].
Proof.
  revert st. induction evs as [| e rest IH]; intros st Hd; [reflexivity|].
  cbn [run].
  assert (Hs : should_publish (fst (step st e)) = false /\
               snd (step st e) = []).
  { destruct e; cbn [step fst snd]; try (split; [exact Hd | reflexivity]).
    unfold PublishData. rewrite Hd. split; [exact Hd | reflexivity]. }
  destruct (step st e) as [st1 out1]. cbn [fst snd] in Hs.
  destruct Hs as [Hs1 Hs2].
  specialize (IH st1 Hs1). destruct (run st1 rest) as [st2 out2].
  cbn [snd] in *. subst. reflexivity.
Qed.

Lemma connect_delta_no_connect (evs : list (Event T)) :
  forallb (fun e => negb (is_connect e)) evs = true ->
  (connect_delta evs <= 0)%Z.
Proof.
  induction evs as [| e rest IH]; cbn [forallb connect_delta]; intros Hn;
    [lia|].
  apply andb_true_iff in Hn. destruct Hn as [He Hrest]. specialize (IH Hrest).
  destruct e; cbn [is_connect negb] in He; try discriminate; lia.
Qed.

(** X17: with a subscriber count of zero or less, no connection among the
    events, and no more disconnections than the [int] can count down
    (the count minus the disconnections is not below [INT_MIN]), nothing
    is published. *)
Theorem run_no_subscriber (evs : list (Event T)) (st : DipoleMagnetPair T) :
  (connect_count st <= 0)%Z ->
  forallb (fun e => negb (is_connect e)) evs = true ->
  (INT_MIN <= connect_count st + connect_delta evs)%Z ->
  snd (run st evs) = [].
Proof.
  revert st.
  induction evs as [| e rest IH]; intros st Hc Hn Hlo; [reflexivity|].
  cbn [forallb] in Hn. apply andb_true_iff in Hn. destruct Hn as [He Hrest].
  pose proof (connect_delta_no_connect rest Hrest) as Hd.
  cbn [run].
  assert (Hs : (connect_count (fst (step st e)) <= 0)%Z /\
               (INT_MIN <= connect_count (fst (step st e))
                           + connect_delta rest)%Z /\
               snd (step st e) = []).
  { destruct e; cbn [step fst snd is_connect negb connect_delta] in *;
      try discriminate.
    - cbn [Disconnect set_connect_count connect_count].
      rewrite wrap_int_in_range.
      + repeat split; lia.
      + unfold in_int_range, INT_MAX. unfold INT_MIN in *.
        apply andb_true_iff. split; apply Z.leb_le; lia.
    - rewrite (proj2 (PublishData_configuration st _ _ _ _)).
      unfold PublishData.
      replace (0 <? connect_count st)%Z with false
        by (symmetry; apply Z.ltb_ge; lia).
      rewrite andb_false_r. repeat split; [exact Hc | lia]. }
  destruct (step st e) as [st1 out1]. cbn [fst snd] in Hs.
  destruct Hs as (Hs1 & Hs2 & Hs3).
  specialize (IH st1 Hs1 Hrest Hs2). destruct (run st1 rest) as [st2 out2].
  cbn [snd] in *. subst. reflexivity.
Qed.

(** X18: with publishing enabled, a subscriber connected and an
    [update_rate] that is not positive, every call of [PublishData]
    publishes its two messages, the wrench before the field, whatever the
    simulation times. *)
Theorem run_unlimited (evs : list (Event T)) (st : DipoleMagnetPair T) :
  should_publish st = true -> (0 < connect_count st)%Z ->
  (of_Z 0 <? update_rate st)%sc = false ->
  forallb (@is_publish T) evs = true ->
  snd (run st evs) = flat_map (messages_of st) evs.
Proof.
  revert st.
  induction evs as [| e rest IH]; intros st Hp Hc Hr Hall; [reflexivity|].
  cbn [forallb] in Hall. apply andb_true_iff in Hall.
  destruct Hall as [He Hrest].
  destruct e as [| | t f tq m]; cbn in He; try discriminate.
  cbn [run step flat_map messages_of].
  unfold PublishData at 1. rewrite Hp, Hr.
  replace (0 <? connect_count st)%Z with true
    by (symmetry; apply Z.ltb_lt; lia).
  cbn [andb].
  specialize (IH (set_msgs st (mkWrenchStamped "world" t f tq)
                    (mkMagneticField (fst (link_name st)) t m))
                Hp Hc Hr Hrest).
  destruct (run _ rest) as [st2 out2]. cbn [snd] in *.
  rewrite IH. reflexivity.
Qed.

End MorePublishing.

Lemma run_disabled_witness :
  snd (@run float (DoubleScalar pow_mul) new_plugin_double
         [ EvConnect; EvPublish (mkTime 5 0) nan3 nan3 nan3 ])
  = [].
Proof.
  apply (@run_disabled float (DoubleScalar pow_mul)). reflexivity.
Defined.

Lemma run_connect_count_witness :
  connect_count
    (fst (@run float (DoubleScalar pow_mul) new_plugin_double
            [ EvDisconnect; EvDisconnect; EvConnect;
              EvPublish (mkTime 5 0) nan3 nan3 nan3 ]))
  = (-1)%Z.
Proof.
  apply (@run_connect_count float (DoubleScalar pow_mul)
           [ EvDisconnect; EvDisconnect; EvConnect;
             EvPublish (mkTime 5 0) nan3 nan3 nan3 ]
           new_plugin_double).
  reflexivity.
Defined.

Lemma run_no_subscriber_witness :
  snd (@run float (DoubleScalar pow_mul)
         (@DipoleMagnetPair_new float (DoubleScalar pow_mul) true 0%float)
         [ EvDisconnect; EvPublish (mkTime 5 0) nan3 nan3 nan3 ])
  = [].
Proof.
  apply (@run_no_subscriber float (DoubleScalar pow_mul)).
  - cbn. lia.
  - reflexivity.
  - cbn. unfold INT_MIN. lia.
Defined.

Lemma run_unlimited_witness :
  snd (@run float (DoubleScalar pow_mul)
         (@Connect float
            (@DipoleMagnetPair_new float (DoubleScalar pow_mul) true 0%float))
         [ EvPublish (mkTime 5 0) nan3 nan3 nan3;
           EvPublish (mkTime 5 1) nan3 nan3 nan3 ])
  = [ PubWrench (mkWrenchStamped "world" (mkTime 5 0) nan3 nan3);
      PubMfs (mkMagneticField "" (mkTime 5 0) nan3);
      PubWrench (mkWrenchStamped "world" (mkTime 5 1) nan3 nan3);
      PubMfs (mkMagneticField "" (mkTime 5 1) nan3) ].
Proof.
  apply (@run_unlimited float (DoubleScalar pow_mul)).
  - reflexivity.
  - cbn. lia.
  - reflexivity.
  - reflexivity.
Defined.

(** ** Load and the destructor *)

Section MoreLoad.
Context {T : Type} `{Scalar T}.
Variable Quaternion_of_Euler : Vector3 T -> Quaternion T.

(** The paths through [Load]. *)
Ltac load_cases links sdf ros :=
  unfold Load, Load_proceeds, Load_shouldPublish;
  destruct (HasElement sdf "parentBodyName"); cbn [negb andb];
  [destruct (HasElement sdf "childBodyName"); cbn [negb andb];
   [destruct (GetLink links (Get_string sdf "parentBodyName"));
    [destruct (GetLink links (Get_string sdf "childBodyName"));
     [destruct (HasElement sdf "shouldPublish"); cbn [andb];
      [destruct (Get_bool sdf "shouldPublish"); [destruct ros|]|]|]|]|]|].

(** X19: [Load] connects the plugin to the world updates exactly when both
    body names are given, both links exist and, if publishing is asked
    for, ROS is initialized. *)
Theorem Load_activation (st : DipoleMagnetPair T) (links : list string)
    (sdf : sdf_Element T) (ros_initialized : bool) :
  update_connection st = false ->
  update_connection (Load Quaternion_of_Euler st links sdf ros_initialized)
  = Load_proceeds links sdf &&
    (negb (Load_shouldPublish sdf) || ros_initialized).
Proof.
  intros Hu. load_cases links sdf ros_initialized; cbn;
    try exact Hu; reflexivity.
Qed.

(** X20: a configuration without a body name, or naming a link the model
    does not have, leaves the plugin unconfigured: both magnets are the
    default, and [should_publish], [update_rate], the node handle and the
    update connection are what they were. *)
Theorem Load_unconfigured (st : DipoleMagnetPair T) (links : list string)
    (sdf : sdf_Element T) (ros_initialized : bool) :
  Load_proceeds links sdf = false ->
  let st' := Load Quaternion_of_Euler st links sdf ros_initialized in
  mag st' = (Magnet_default, Magnet_default) /\
  should_publish st' = should_publish st /\
  update_rate st' = update_rate st /\
  update_connection st' = update_connection st /\
  rosnode st' = rosnode st.
Proof.
  cbv zeta. load_cases links sdf ros_initialized; cbn; intros Hp;
    try discriminate; repeat split; reflexivity.
Qed.

(** X21: where [Load] gets past the body names and links, publishing is
    off unless a [shouldPublish] element says true, and the update rate is
    the [updateRate] element, 0 when there is none. *)
Theorem Load_rate_publish (st : DipoleMagnetPair T) (links : list string)
    (sdf : sdf_Element T) (ros_initialized : bool) :
  Load_proceeds links sdf = true ->
  let st' := Load Quaternion_of_Euler st links sdf ros_initialized in
  should_publish st' = Load_shouldPublish sdf /\
  update_rate st'
  = if HasElement sdf "updateRate" then Get_double sdf "updateRate"
    else of_Z 0.
Proof.
  cbv zeta. load_cases links sdf ros_initialized; cbn; intros Hp;
    try discriminate; destruct (HasElement sdf "updateRate");
    split; reflexivity.
Qed.

(** X22: where [Load] gets past the body names and links, the moment of
    the parent magnet is the [parent_dipole_moment] element and the moment
    of the child magnet the [child_dipole_moment] element, each zero when
    its element is missing. *)
Theorem Load_moments (st : DipoleMagnetPair T) (links : list string)
    (sdf : sdf_Element T) (ros_initialized : bool) :
  Load_proceeds links sdf = true ->
  let st' := Load Quaternion_of_Euler st links sdf ros_initialized in
  moment (fst (mag st'))
  = (if HasElement sdf "parent_dipole_moment"
     then Get_Vector3d sdf "parent_dipole_moment" else Vector3_Zero) /\
  moment (snd (mag st'))
  = (if HasElement sdf "child_dipole_moment"
     then Get_Vector3d sdf "child_dipole_moment" else Vector3_Zero).
Proof.
  cbv zeta. intros Hp. rewrite Load_mag, Hp. unfold Load_magnets.
  destruct (HasElement sdf "parent_dipole_moment"),
    (HasElement sdf "child_dipole_moment"),
    (HasElement sdf "parentxyzOffset"), (HasElement sdf "childxyzOffset"),
    (HasElement sdf "parentrpyOffset"), (HasElement sdf "childrpyOffset");
    split; reflexivity.
Qed.

(** X23: where [Load] gets past the body names and links, a
    [parentrpyOffset] element gives the parent magnet, and a
    [childrpyOffset] element the child magnet, the orientation offset of
    the Euler angles in the element named [rpyOffset]: the angles written
    in [parentrpyOffset] and [childrpyOffset] are not read, and with both
    present the two magnets get the same orientation offset. *)
Theorem Load_rpyOffset (st : DipoleMagnetPair T) (links : list string)
    (sdf : sdf_Element T) (ros_initialized : bool) :
  Load_proceeds links sdf = true ->
  let st' := Load Quaternion_of_Euler st links sdf ros_initialized in
  Rot (offset (fst (mag st')))
  = (if HasElement sdf "parentrpyOffset"
     then Quaternion_of_Euler (Get_Vector3d sdf "rpyOffset")
     else Quaternion_Identity) /\
  Rot (offset (snd (mag st')))
  = (if HasElement sdf "childrpyOffset"
     then Quaternion_of_Euler (Get_Vector3d sdf "rpyOffset")
     else Quaternion_Identity).
Proof.
  cbv zeta. intros Hp. rewrite Load_mag, Hp. unfold Load_magnets.
  destruct (HasElement sdf "parent_dipole_moment"),
    (HasElement sdf "child_dipole_moment"),
    (HasElement sdf "parentxyzOffset"), (HasElement sdf "childxyzOffset"),
    (HasElement sdf "parentrpyOffset"), (HasElement sdf "childrpyOffset");
    split; reflexivity.
Qed.

(** X24: [Load] leaves the subscriber count, [last_time] and the two
    message buffers as they were. *)
Theorem Load_keeps (st : DipoleMagnetPair T) (links : list string)
    (sdf : sdf_Element T) (ros_initialized : bool) :
  let st' := Load Quaternion_of_Euler st links sdf ros_initialized in
  connect_count st' = connect_count st /\ last_time st' = last_time st /\
  wrench_msg st' = wrench_msg st /\ mfs_msg st' = mfs_msg st.
Proof.
  cbv zeta. load_cases links sdf ros_initialized; cbn;
    repeat split; reflexivity.
Qed.

(** X25: after a [Load] that got past the body names and links, the
    destructor uses a node handle that was never created exactly when the
    configuration asked for publishing and ROS was not initialized: [Load]
    has then set [should_publish] and returned before creating the node
    handle. *)
Theorem Destroy_after_Load (st : DipoleMagnetPair T) (links : list string)
    (sdf : sdf_Element T) (ros_initialized : bool) :
  rosnode st = false ->
  Load_proceeds links sdf = true ->
  Destroy (Load Quaternion_of_Euler st links sdf ros_initialized) = None <->
  Load_shouldPublish sdf = true /\ ros_initialized = false.
Proof.
  intros Hr. load_cases links sdf ros_initialized; cbn; intros Hp;
    try discriminate; unfold Destroy; cbn; rewrite ?Hr; split; intros Hx;
    try discriminate; try (destruct Hx; discriminate);
    try (split; reflexivity).
Qed.

End MoreLoad.

Lemma Load_activation_witness :
  update_connection (Load Euler_stub new_plugin_R ["base"; "tip"]%string
                       sdf_full false)
  = true.
Proof.
  rewrite (@Load_activation R _ Euler_stub new_plugin_R
             ["base"; "tip"]%string sdf_full false eq_refl).
  reflexivity.
Defined.

Lemma Load_unconfigured_witness :
  mag (Load Euler_stub new_plugin_R ["base"]%string sdf_full true)
  = (Magnet_default, Magnet_default).
Proof.
  apply (@Load_unconfigured R _ Euler_stub new_plugin_R ["base"]%string
           sdf_full true eq_refl).
Defined.

Lemma Load_rate_publish_witness :
  should_publish (Load Euler_stub new_plugin_R ["base"; "tip"]%string
                    sdf_full true)
  = false /\
  update_rate (Load Euler_stub new_plugin_R ["base"; "tip"]%string
                 sdf_full true)
  = 50%R.
Proof.
  apply (@Load_rate_publish R _ Euler_stub new_plugin_R
           ["base"; "tip"]%string sdf_full true eq_refl).
Defined.

Lemma Load_moments_witness :
  moment (fst (mag (Load Euler_stub new_plugin_R ["base"; "tip"]%string
                      sdf_full true)))
  = mkVector3 0%R 0%R 1%R /\
  moment (snd (mag (Load Euler_stub new_plugin_R ["base"; "tip"]%string
                      sdf_full true)))
  = mkVector3 0%R 0%R 2%R.
Proof.
  apply (@Load_moments R _ Euler_stub new_plugin_R ["base"; "tip"]%string
           sdf_full true eq_refl).
Defined.

Lemma Load_rpyOffset_witness :
  Rot (offset (fst (mag (Load Euler_stub new_plugin_R
                           ["base"; "tip"]%string sdf_full true))))
  = mkQuaternion 0%R 0%R 0%R 1%R /\
  Rot (offset (snd (mag (Load Euler_stub new_plugin_R
                           ["base"; "tip"]%string sdf_full true))))
  = mkQuaternion 0%R 0%R 0%R 1%R.
Proof.
  apply (@Load_rpyOffset R _ Euler_stub new_plugin_R ["base"; "tip"]%string
           sdf_full true eq_refl).
Defined.

Lemma Destroy_after_Load_witness :
  Destroy (Load Euler_stub new_plugin_R ["base"; "tip"]%string
             sdf_publishing_R false)
  = None.
Proof.
  apply (@Destroy_after_Load R _ Euler_stub new_plugin_R
           ["base"; "tip"]%string sdf_publishing_R false eq_refl eq_refl).
  split; reflexivity.
Defined.

(** ** Coincident dipoles through OnUpdate *)

Section MoreBinary64.
Local Open Scope float_scope.
Variable libm_pow : float -> float -> float.
Hypothesis pow_zero : libm_pow 0 2 = 0.
Hypothesis pow_nan : libm_pow nan 2 = nan.

Ltac nan_prop :=
  repeat (rewrite ?mul_nan_r, ?mul_nan_l, ?add_nan_r, ?add_nan_l,
            ?sub_nan_r, ?sub_nan_l).

Lemma GetForceTorque_nan (p_self : Pose3 float) (m_self : Vector3 float)
    (p_other : Pose3 float) (m_other : Vector3 float) :
  Pos p_self = Pos p_other ->
  @GetForceTorque float (DoubleScalar libm_pow) p_self m_self p_other m_other
  = (nan3, nan3).
Proof.
  intros Heq. unfold GetForceTorque.
  rewrite (@p_unit_nan libm_pow pow_zero pow_nan _ _ Heq).
  set (d := @Length float (DoubleScalar libm_pow) _).
  unfold nan3. double_ops. nan_prop. reflexivity.
Qed.

(** X26: in binary64, an update with the two dipoles at the same position
    hands the physics engine NaN in every component of the force and of
    the torque, on both links. *)
Theorem OnUpdate_coincident_nan (st : DipoleMagnetPair float)
    (cog_first cog_second : Pose3 float) (cur_time : Time) :
  Pos (@dipole_pose float (DoubleScalar libm_pow) cog_first (fst (mag st)))
  = Pos (@dipole_pose float (DoubleScalar libm_pow) cog_second
           (snd (mag st))) ->
  snd (fst (@OnUpdate float (DoubleScalar libm_pow) st cog_first cog_second
              cur_time))
  = Applied_nan.
Proof.
  intros Heq. unfold OnUpdate.
  rewrite (GetForceTorque_nan _ _ _ _ Heq).
  destruct (PublishData _ _ _ _ _) as [st' out]. cbn [fst snd].
  unfold Applied_nan, nan3. double_ops. nan_prop. reflexivity.
Qed.

End MoreBinary64.

Lemma OnUpdate_coincident_nan_witness :
  snd (fst (@OnUpdate float (DoubleScalar pow_mul) new_plugin_double
              cog_double cog_double (mkTime 1 0)))
  = Applied_nan.
Proof.
  apply (@OnUpdate_coincident_nan pow_mul); reflexivity.
Defined.
